(** * Kairos heartbeat monitor: gap detection and validation

    A shallow embedding of [app/models.py] and [app/monitor.py], followed by
    the properties stated for them.

    Conventions of the embedding.
    - A [datetime] is an instant on the UTC time line, counted in
      microseconds (the resolution of Python's [datetime]); a [timedelta] is a
      signed number of microseconds.  Comparison and addition are those of
      [Z].  The ranges of [datetime] (years 1 to 9999) and of [timedelta], and
      the difference between naive and aware values, are not part of the
      model.
    - Python's [int] is [Z]; [str] is [string], each character standing for
      the code point of the same number (0 to 255).
    - A raw record is a JSON value as [json.load] returns it ([pyval]).
    - A [while] loop runs on fuel; [None] stands for a loop that does not
      terminate.  The fuel handed to the loop is computed from the loop's own
      measure, and is shown to be enough for every validated configuration. *)

From Stdlib Require Import ZArith Lia SpecFloat Ascii.
From stdpp Require Import gmap strings list sorting pretty.

#[local] Set Warnings "-register-all".
#[local] Open Scope Z_scope.

(** ** datetime and timedelta *)

Definition datetime := Z.
Definition timedelta_t := Z.

(** [timedelta(seconds=n)] *)
Definition timedelta (seconds : Z) : timedelta_t := seconds * 1000000.

(** The instant [hh:mm] of the day that starts at [midnight]. *)
Definition at_clock (midnight : datetime) (hh mm : Z) : datetime :=
  midnight + timedelta (hh * 3600 + mm * 60).

(** ** models.py *)

Module HeartbeatEvent.
Record t := mk { service : string; timestamp : datetime }.
End HeartbeatEvent.

Module Alert.
Record t := mk {
  service : string;
  alert_at : datetime;
  missed_count : Z;
  last_seen : datetime
}.
End Alert.

Module ValidationResult.
Record t := mk {
  total_events : Z;
  valid_events : Z;
  invalid_events : Z;
  errors : list string;
  skipped_reasons : gmap string Z
}.
End ValidationResult.

Module MonitorConfig.
Record t := mk {
  expected_interval_seconds : Z;
  allowed_misses : Z;
  tolerance_seconds : Z;
  timezone : string
}.

(** A validated configuration: the lower bound of each field. *)
Definition valid (c : t) : Prop :=
  1 <= expected_interval_seconds c /\ 1 <= allowed_misses c /\
  0 <= tolerance_seconds c.

(** The full [Field] constraints: [ge] and [le] of each field. *)
Definition accepted (c : t) : Prop :=
  1 <= expected_interval_seconds c <= 86400 /\
  1 <= allowed_misses c <= 100 /\
  0 <= tolerance_seconds c.
End MonitorConfig.

(** ** Raw records *)

Inductive pyval :=
| PyNone
| PyBool (b : bool)
| PyInt (n : Z)
| PyFloat (f : spec_float)
| PyStr (s : string)
| PyList (l : list pyval)
| PyDict (d : gmap string pyval).

(** [bool(v)] *)
Definition truthy (v : pyval) : bool :=
  match v with
  | PyNone => false
  | PyBool b => b
  | PyInt n => negb (n =? 0)
  | PyFloat (S754_zero _) => false
  | PyFloat _ => true
  | PyStr s => negb (String.eqb s "")
  | PyList l => match l with [] => false | _ => true end
  | PyDict d => negb (bool_decide (d = ∅))
  end.

(** [v in [None, '']] *)
Definition is_none_or_empty_str (v : pyval) : bool :=
  match v with
  | PyNone => true
  | PyStr s => String.eqb s ""
  | _ => false
  end.

(** *** str methods *)

(** [c.isspace()] for a code point below 256. *)
Definition py_isspace (c : ascii) : bool :=
  let n := N_of_ascii c in
  ((9 <=? n) && (n <=? 13) || (28 <=? n) && (n <=? 32) ||
   (n =? 133) || (n =? 160))%N.

Fixpoint lstrip (s : string) : string :=
  match s with
  | EmptyString => EmptyString
  | String c s' => if py_isspace c then lstrip s' else s
  end.

(** [s.strip()] *)
Definition strip (s : string) : string :=
  String.rev (lstrip (String.rev (lstrip s))).

Definition lower_char (c : ascii) : ascii :=
  let n := N_of_ascii c in
  if ((65 <=? n) && (n <=? 90) ||
      (192 <=? n) && (n <=? 222) && negb (n =? 215))%N
  then ascii_of_N (n + 32) else c.

(** [s.lower()] *)
Fixpoint lower (s : string) : string :=
  match s with
  | EmptyString => EmptyString
  | String c s' => String (lower_char c) (lower s')
  end.

(** [sub in s] *)
Fixpoint contains (sub s : string) : bool :=
  String.prefix sub s ||
  match s with
  | EmptyString => false
  | String _ s' => contains sub s'
  end.

(** One character of the class [[a-zA-Z0-9_-]]. *)
Definition identifier_char (c : ascii) : bool :=
  let n := N_of_ascii c in
  ((97 <=? n) && (n <=? 122) || (65 <=? n) && (n <=? 90) ||
   (48 <=? n) && (n <=? 57) || (n =? 95) || (n =? 45))%N.

Fixpoint all_chars (p : ascii -> bool) (s : string) : bool :=
  match s with
  | EmptyString => true
  | String c s' => p c && all_chars p s'
  end.

(** The pattern [^[a-zA-Z0-9_-]+$] of the [service] field. *)
Definition matches_service_pattern (s : string) : bool :=
  negb (String.eqb s "") && all_chars identifier_char s.

(** ** HeartbeatEvent( **raw_event )

    What pydantic does with the field declarations of [HeartbeatEvent]: the
    fields are validated in declaration order, [service] first; the errors of
    all fields are collected into one [ValidationError]; an exception of a
    validator that is neither [ValueError] nor [AssertionError] leaves the
    constructor as it is.  Keys other than the two fields are ignored. *)

(** One entry of [ValidationError.errors()]; [loc] is [loc[0]]. *)
Record ErrorDetails := { loc : string; type : string; msg : string }.

Inductive field_outcome (A : Type) :=
| FieldOk (a : A)
| FieldError (e : ErrorDetails)
| FieldRaise (exc : string).
Arguments FieldOk {A} a.
Arguments FieldError {A} e.
Arguments FieldRaise {A} exc.

(** The outcome of the datetime parser on the raw [timestamp] value. *)
Inductive parsed :=
| Parsed (t : datetime)
| Unparsable (type msg : string).

(** The outcome of [HeartbeatEvent( **raw_event )]. *)
Inductive construction :=
| Constructed (event : HeartbeatEvent.t)
| ValidationError (first : ErrorDetails) (rest : list ErrorDetails)
| OtherException (str : string).

(** [type(v).__name__] *)
Definition type_name (v : pyval) : string :=
  match v with
  | PyNone => "NoneType"
  | PyBool _ => "bool"
  | PyInt _ => "int"
  | PyFloat _ => "float"
  | PyStr _ => "str"
  | PyList _ => "list"
  | PyDict _ => "dict"
  end.

(** [HeartbeatEvent.validate_service], a [mode='before'] validator. *)
Inductive validator_outcome :=
| Returns (s : string)
| ValueError (msg : string)
| AttributeError (msg : string).

Definition validate_service (v : pyval) : validator_outcome :=
  if negb (truthy v) then ValueError "Service name cannot be empty"
  else match v with
       | PyStr s =>
           if negb (truthy (PyStr (strip s)))
           then ValueError "Service name cannot be empty"
           else Returns (lower (strip s))
       | _ => AttributeError
                ("'" +:+ type_name v +:+ "' object has no attribute 'strip'")
       end.

(** [Field(min_length=1, max_length=100, pattern=...)] on a [str]. *)
Definition constrained_str (s : string) : field_outcome string :=
  let len := Z.of_nat (String.length s) in
  if len <? 1 then
    FieldError {| loc := "service"; type := "string_too_short";
                  msg := "String should have at least 1 character" |}
  else if 100 <? len then
    FieldError {| loc := "service"; type := "string_too_long";
                  msg := "String should have at most 100 characters" |}
  else if negb (matches_service_pattern s) then
    FieldError {| loc := "service"; type := "string_pattern_mismatch";
                  msg := "String should match pattern '^[a-zA-Z0-9_-]+$'" |}
  else FieldOk s.

Definition missing (field : string) : ErrorDetails :=
  {| loc := field; type := "missing"; msg := "Field required" |}.

Definition service_field (d : gmap string pyval) : field_outcome string :=
  match d !! "service" with
  | None => FieldError (missing "service")
  | Some v =>
      match validate_service v with
      | Returns s => constrained_str s
      | ValueError m =>
          FieldError {| loc := "service"; type := "value_error";
                        msg := "Value error, " +:+ m |}
      | AttributeError m => FieldRaise m
      end
  end.

Section pydantic.
(** pydantic's datetime parser, which is not part of the repository. *)
Variable parse_datetime : pyval -> parsed.

Definition timestamp_field (d : gmap string pyval) : field_outcome datetime :=
  match d !! "timestamp" with
  | None => FieldError (missing "timestamp")
  | Some v =>
      match parse_datetime v with
      | Parsed t => FieldOk t
      | Unparsable ty m =>
          FieldError {| loc := "timestamp"; type := ty; msg := m |}
      end
  end.

Definition HeartbeatEvent_new (raw_event : pyval) : construction :=
  match raw_event with
  | PyDict d =>
      match service_field d, timestamp_field d with
      | FieldRaise exc, _ => OtherException exc
      | _, FieldRaise exc => OtherException exc
      | FieldOk s, FieldOk t => Constructed (HeartbeatEvent.mk s t)
      | FieldError e1, FieldError e2 => ValidationError e1 [e2]
      | FieldError e1, FieldOk _ => ValidationError e1 []
      | FieldOk _, FieldError e2 => ValidationError e2 []
      end
  | _ =>
      OtherException
        ("app.models.HeartbeatEvent() argument after ** must be a mapping, not "
         +:+ type_name raw_event)
  end.
End pydantic.

(** ** monitor.py: validation *)

(** [HeartbeatMonitor._categorize_validation_error] *)
Definition _categorize_validation_error
    (first : ErrorDetails) (raw_event : gmap string pyval) : string :=
  let field := loc first in
  let error_type := type first in
  if negb (bool_decide (is_Some (raw_event !! "service"))) then "missing_service"
  else if negb (bool_decide (is_Some (raw_event !! "timestamp"))) then
    "missing_timestamp"
  else if is_none_or_empty_str (default PyNone (raw_event !! "service")) then
    "empty_service"
  else if is_none_or_empty_str (default PyNone (raw_event !! "timestamp")) then
    "empty_timestamp"
  else if contains "timestamp" field || contains "datetime" error_type then
    "invalid_timestamp_format"
  else if contains "service" field then "invalid_service_format"
  else "validation_error".

(** The three locals of the loop of [_validate_events]. *)
Record validation_state := {
  valid_events : list HeartbeatEvent.t;
  errors : list string;
  skipped_reasons : gmap string Z
}.

(** [skipped_reasons[reason] += 1] on a [defaultdict(int)] *)
Definition increment (reason : string) (m : gmap string Z) : gmap string Z :=
  <[reason := default 0 (m !! reason) + 1]> m.

Section validation.
Variable parse_datetime : pyval -> parsed.

(** One turn of the loop: the [try] and its two handlers.  Only a mapping
    reaches the first handler, any other record fails before validation. *)
Definition validate_event (st : validation_state) (idx : Z) (raw_event : pyval)
    : validation_state :=
  match HeartbeatEvent_new parse_datetime raw_event with
  | Constructed event =>
      {| valid_events := valid_events st ++ [event];
         errors := errors st;
         skipped_reasons := skipped_reasons st |}
  | ValidationError first _ =>
      let reason :=
        _categorize_validation_error first
          (match raw_event with PyDict d => d | _ => ∅ end) in
      {| valid_events := valid_events st;
         errors := errors st ++
           ["Event " +:+ pretty idx +:+ ": " +:+ reason +:+ " - " +:+ msg first];
         skipped_reasons := increment reason (skipped_reasons st) |}
  | OtherException str =>
      let reason := "unexpected_error" in
      {| valid_events := valid_events st;
         errors := errors st ++
           ["Event " +:+ pretty idx +:+ ": Unexpected error - " +:+ str];
         skipped_reasons := increment reason (skipped_reasons st) |}
  end.

(** [for idx, raw_event in enumerate(raw_events)], from index [idx] on. *)
Fixpoint validate_from (st : validation_state) (idx : Z)
    (raw_events : list pyval) : validation_state :=
  match raw_events with
  | [] => st
  | raw_event :: more =>
      validate_from (validate_event st idx raw_event) (idx + 1) more
  end.

(** [HeartbeatMonitor._validate_events] *)
Definition _validate_events (raw_events : list pyval)
    : list HeartbeatEvent.t * ValidationResult.t :=
  let st :=
    validate_from
      {| valid_events := []; errors := []; skipped_reasons := ∅ |}
      0 raw_events in
  (valid_events st,
   ValidationResult.mk
     (Z.of_nat (length raw_events))
     (Z.of_nat (length (valid_events st)))
     (Z.of_nat (length raw_events) - Z.of_nat (length (valid_events st)))
     (errors st)
     (skipped_reasons st)).
End validation.

(** [sum(skipped_reasons.values())] *)
Definition sum_values (m : gmap string Z) : Z :=
  map_fold (fun _ v acc => v + acc) 0 m.

(** ** monitor.py: gap detection *)

(** [sorted(l, key=key)]: a stable sort by ascending key.  An element goes in
    front of the first element of the sorted tail whose key is not smaller,
    so elements of equal key keep the order they had in [l]. *)
Fixpoint insert_by {A} (key : A -> Z) (x : A) (l : list A) : list A :=
  match l with
  | [] => [x]
  | y :: l' => if key y <? key x then y :: insert_by key x l' else x :: l
  end.

Definition sorted {A} (key : A -> Z) (l : list A) : list A :=
  foldr (insert_by key) [] l.

Module HeartbeatMonitor.
Record t := mk {
  config : MonitorConfig.t;
  interval : timedelta_t;
  tolerance : timedelta_t
}.

(** [HeartbeatMonitor.__init__] *)
Definition new (config : MonitorConfig.t) : t :=
  {| config := config;
     interval := timedelta (MonitorConfig.expected_interval_seconds config);
     tolerance := timedelta (MonitorConfig.tolerance_seconds config) |}.
End HeartbeatMonitor.

Import HeartbeatMonitor (config, interval, tolerance).

(** The locals of [_detect_service_alerts] that live across the events. *)
Record scan_state := {
  alerts : list Alert.t;
  last_heartbeat_time : datetime;
  consecutive_misses : Z
}.

(** [while expected_time + self.tolerance < current_time: ...] *)
Fixpoint while_missed (fuel : nat) (self : HeartbeatMonitor.t) (service : string)
    (current_time : datetime) (st : scan_state) (expected_time : datetime)
    : option scan_state :=
  if expected_time + tolerance self <? current_time then
    match fuel with
    | O => None
    | S fuel' =>
        let consecutive_misses := consecutive_misses st + 1 in
        let st' :=
          if MonitorConfig.allowed_misses (config self) <=? consecutive_misses then
            let alert :=
              Alert.mk service expected_time consecutive_misses
                (last_heartbeat_time st) in
            {| alerts := alerts st ++ [alert];
               consecutive_misses := 0;
               last_heartbeat_time := expected_time |}
          else
            {| alerts := alerts st;
               consecutive_misses := consecutive_misses;
               last_heartbeat_time := last_heartbeat_time st |} in
        while_missed fuel' self service current_time st'
          (expected_time + interval self)
    end
  else Some st.

(** The measure of the loop: with a positive interval, the loop body runs at
    most this many times before [expected_time + tolerance] reaches
    [current_time]; with an interval that is not positive, the budget is
    spent as soon as the loop is entered, and the loop never ends. *)
Definition while_fuel (self : HeartbeatMonitor.t)
    (current_time expected_time : datetime) : nat :=
  Z.to_nat ((current_time - (expected_time + tolerance self)) / interval self + 1).

(** The body of [for current_event in sorted_events[1:]]. *)
Definition for_body (self : HeartbeatMonitor.t) (service : string)
    (st : scan_state) (current_event : HeartbeatEvent.t) : option scan_state :=
  let expected_time := last_heartbeat_time st + interval self in
  let current_time := HeartbeatEvent.timestamp current_event in
  st' ← while_missed (while_fuel self current_time expected_time)
          self service current_time st expected_time;
  Some {| alerts := alerts st';
          consecutive_misses := 0;
          last_heartbeat_time := current_time |}.

Fixpoint for_events (self : HeartbeatMonitor.t) (service : string)
    (st : scan_state) (events : list HeartbeatEvent.t) : option scan_state :=
  match events with
  | [] => Some st
  | current_event :: more =>
      st' ← for_body self service st current_event;
      for_events self service st' more
  end.

(** [HeartbeatMonitor._detect_service_alerts].  The sorted list has the
    elements of [events], so past the first test it is never empty and
    [sorted_events[0]] is always there. *)
Definition _detect_service_alerts (self : HeartbeatMonitor.t) (service : string)
    (events : list HeartbeatEvent.t) : option (list Alert.t) :=
  match events with
  | [] => Some []
  | _ =>
      match sorted HeartbeatEvent.timestamp events with
      | [] => Some []
      | first :: rest =>
          st ← for_events self service
                 {| alerts := [];
                    last_heartbeat_time := HeartbeatEvent.timestamp first;
                    consecutive_misses := 0 |}
                 rest;
          Some (alerts st)
      end
  end.

(** ** Quantities the properties are stated with *)


(** The number of expected windows [h + k * interval], [k >= 1], whose
    deadline [+ tolerance] lies strictly before the heartbeat at [c]. *)
Definition missed_windows (self : HeartbeatMonitor.t) (h c : datetime) : Z :=
  Z.max 0 ((c - h - tolerance self - 1) / interval self).

(** [n] alerts of one outage, the first one anchored at [anchor]. *)
Fixpoint alerts_from (self : HeartbeatMonitor.t) (service : string)
    (anchor : datetime) (n : nat) : list Alert.t :=
  match n with
  | O => []
  | S n' =>
      let boundary :=
        anchor + MonitorConfig.allowed_misses (config self) * interval self in
      Alert.mk service boundary (MonitorConfig.allowed_misses (config self)) anchor
      :: alerts_from self service boundary n'
  end.

(** The alerts of the gap between the heartbeats at [h] and at [c]. *)
Definition gap_alerts (self : HeartbeatMonitor.t) (service : string)
    (h c : datetime) : list Alert.t :=
  alerts_from self service h
    (Z.to_nat (missed_windows self h c / MonitorConfig.allowed_misses (config self))).

(** The alerts of a chronological run of heartbeats that starts at [h]. *)
Fixpoint run_alerts (self : HeartbeatMonitor.t) (service : string)
    (h : datetime) (later : list datetime) : list Alert.t :=
  match later with
  | [] => []
  | c :: more => gap_alerts self service h c ++ run_alerts self service c more
  end.

(** The alerts of heartbeats given in chronological order. *)
Definition scan_alerts (self : HeartbeatMonitor.t) (service : string)
    (timestamps : list datetime) : list Alert.t :=
  match timestamps with
  | [] => []
  | h :: later => run_alerts self service h later
  end.

(** The number of turns the loop still takes when it is entered with
    [expected_time] and a positive interval. *)
Definition remaining (self : HeartbeatMonitor.t)
    (expected_time current_time : datetime) : Z :=
  Z.max 0 ((current_time - (expected_time + tolerance self) + interval self - 1)
           / interval self).

(** ** models.py: the other constructors *)

(** [MonitorConfig(expected_interval_seconds=.., allowed_misses=..,
    tolerance_seconds=..)] on [int] arguments, as [main_cli] and the
    [/monitor] endpoint call it: each field is checked against its [ge] and
    [le], in declaration order, and [timezone] takes its default. *)
Definition check_ge (field : string) (bound value : Z) : list ErrorDetails :=
  if value <? bound then
    [{| loc := field; type := "greater_than_equal";
        msg := "Input should be greater than or equal to " +:+ pretty bound |}]
  else [].

Definition check_le (field : string) (bound value : Z) : list ErrorDetails :=
  if bound <? value then
    [{| loc := field; type := "less_than_equal";
        msg := "Input should be less than or equal to " +:+ pretty bound |}]
  else [].

Definition MonitorConfig_new
    (expected_interval_seconds allowed_misses tolerance_seconds : Z)
    : list ErrorDetails + MonitorConfig.t :=
  let errors :=
    check_ge "expected_interval_seconds" 1 expected_interval_seconds ++
    check_le "expected_interval_seconds" 86400 expected_interval_seconds ++
    check_ge "allowed_misses" 1 allowed_misses ++
    check_le "allowed_misses" 100 allowed_misses ++
    check_ge "tolerance_seconds" 0 tolerance_seconds in
  match errors with
  | [] =>
      inr (MonitorConfig.mk expected_interval_seconds allowed_misses
             tolerance_seconds "UTC")
  | _ => inl errors
  end.

Module MonitorResult.
(** [monitoring_duration] is the [timedelta] that [monitoring_duration_ms]
    is computed from; the float of milliseconds is not modelled. *)
Record t := mk {
  alerts : list Alert.t;
  validation : ValidationResult.t;
  services_monitored : list string;
  monitoring_duration : timedelta_t;
  timestamp : datetime
}.
End MonitorResult.

(** What a call can come to. *)
Inductive outcome (A : Type) :=
| Returned (a : A)
| Raised (errors : list ErrorDetails)
| Diverges.
Arguments Returned {A} a.
Arguments Raised {A} errors.
Arguments Diverges {A}.

(** [MonitorResult(...)]: the arguments are of the declared types, and the
    only constraint is [ge=0] on [monitoring_duration_ms], which has the sign
    of the duration. *)
Definition MonitorResult_new (alerts : list Alert.t)
    (validation : ValidationResult.t) (services_monitored : list string)
    (duration : timedelta_t) (timestamp : datetime)
    : outcome MonitorResult.t :=
  if duration <? 0 then
    Raised [{| loc := "monitoring_duration_ms"; type := "greater_than_equal";
               msg := "Input should be greater than or equal to 0" |}]
  else
    Returned (MonitorResult.mk alerts validation services_monitored duration
                timestamp).

(** ** monitor.py: grouping and the entry point *)

(** [services[event.service].append(event)] on a [defaultdict(list)].  A
    [dict] keeps its keys in the order they were first set, and the entry
    point reads that order, so the mapping is a list of pairs with one pair
    for each key. *)
Fixpoint append_event (services : list (string * list HeartbeatEvent.t))
    (event : HeartbeatEvent.t) : list (string * list HeartbeatEvent.t) :=
  match services with
  | [] => [(HeartbeatEvent.service event, [event])]
  | (name, events) :: more =>
      if decide (name = HeartbeatEvent.service event)
      then (name, events ++ [event]) :: more
      else (name, events) :: append_event more event
  end.

(** [HeartbeatMonitor._group_by_service] *)
Definition _group_by_service (events : list HeartbeatEvent.t)
    : list (string * list HeartbeatEvent.t) :=
  foldl append_event [] events.

(** [for service, events in services_map.items(): ...] *)
Fixpoint detect_each (self : HeartbeatMonitor.t)
    (services_map : list (string * list HeartbeatEvent.t))
    (all_alerts : list Alert.t) : option (list Alert.t) :=
  match services_map with
  | [] => Some all_alerts
  | (service, events) :: more =>
      service_alerts ← _detect_service_alerts self service events;
      detect_each self more (all_alerts ++ service_alerts)
  end.

Section entry_point.
Variable parse_datetime : pyval -> parsed.

(** [HeartbeatMonitor.detect_alerts].  [start_time] and [end_time] are the two
    readings of the clock, before validation and after detection. *)
Definition detect_alerts (self : HeartbeatMonitor.t)
    (start_time end_time : datetime) (raw_events : list pyval)
    : outcome MonitorResult.t :=
  let '(valid_events, validation_result) :=
    _validate_events parse_datetime raw_events in
  let services_map := _group_by_service valid_events in
  match detect_each self services_map [] with
  | None => Diverges
  | Some all_alerts =>
      MonitorResult_new all_alerts validation_result services_map.*1
        (end_time - start_time) end_time
  end.
End entry_point.

(** ** More quantities the properties are stated with *)

(** The distinct elements of a list, in the order of their first occurrence. *)
Fixpoint first_seen (l : list string) : list string :=
  match l with
  | [] => []
  | x :: l' => x :: filter (fun y => y <> x) (first_seen l')
  end.

(** The events of one service, in the order of the batch. *)
Definition events_of (service : string) (events : list HeartbeatEvent.t)
    : list HeartbeatEvent.t :=
  filter (fun e => HeartbeatEvent.service e = service) events.

(** The accepted event of a raw record, if it is accepted. *)
Definition accepted_event (parse_datetime : pyval -> parsed) (raw_event : pyval)
    : option HeartbeatEvent.t :=
  match HeartbeatEvent_new parse_datetime raw_event with
  | Constructed event => Some event
  | _ => None
  end.

(** [skipped_reasons.get(reason, 0)] *)
Definition skipped (result : ValidationResult.t) (reason : string) : Z :=
  default 0 (ValidationResult.skipped_reasons result !! reason).



(** A parser for the witnesses: an [int] below 2e10 is a Unix time in
    seconds, as pydantic reads it; nothing else is taken. *)
Definition unix_seconds_parser (v : pyval) : parsed :=
  match v with
  | PyInt n =>
      if (0 <=? n) && (n <? 20000000000) then Parsed (timedelta n)
      else Unparsable "datetime_parsing" "Input should be a valid datetime"
  | _ => Unparsable "datetime_type" "Input should be a valid datetime"
  end.

Definition record (service timestamp : pyval) : pyval :=
  PyDict (<["service" := service]> (<["timestamp" := timestamp]> ∅)).

(** A batch for the witnesses: two services, one of them silent for ten
    minutes, and one record that is not a mapping. *)
Definition sample_batch : list pyval :=
  [record (PyStr "sms") (PyInt 0); record (PyStr "Email") (PyInt 60);
   record (PyStr "sms") (PyInt 600); PyNone].

(** ** Sanity checks on concrete inputs *)

Definition cfg_60_3 : MonitorConfig.t := MonitorConfig.mk 60 3 0 "UTC".

Definition email_at (hh mm : Z) : HeartbeatEvent.t :=
  HeartbeatEvent.mk "email" (at_clock 1754265600000000 hh mm).

Example alert_triggered :
  _detect_service_alerts (HeartbeatMonitor.new cfg_60_3) "email"
    [email_at 10 0; email_at 10 1; email_at 10 5] =
  Some [Alert.mk "email" (HeartbeatEvent.timestamp (email_at 10 4)) 3
          (HeartbeatEvent.timestamp (email_at 10 1))].
Proof. vm_compute. reflexivity. Qed.

Example near_miss_no_alert :
  _detect_service_alerts (HeartbeatMonitor.new cfg_60_3) "email"
    [email_at 10 0; email_at 10 1; email_at 10 4] = Some [].
Proof. vm_compute. reflexivity. Qed.

Example unordered_input_two_alerts :
  length <$> _detect_service_alerts (HeartbeatMonitor.new cfg_60_3) "email"
    [email_at 10 5; email_at 10 0; email_at 10 1; email_at 10 10] = Some 2%nat.
Proof. vm_compute. reflexivity. Qed.

Example outage_of_nine_misses :
  _detect_service_alerts (HeartbeatMonitor.new cfg_60_3) "email"
    [email_at 10 0; email_at 10 10] =
  Some [Alert.mk "email" (HeartbeatEvent.timestamp (email_at 10 3)) 3
          (HeartbeatEvent.timestamp (email_at 10 0));
        Alert.mk "email" (HeartbeatEvent.timestamp (email_at 10 6)) 3
          (HeartbeatEvent.timestamp (email_at 10 3));
        Alert.mk "email" (HeartbeatEvent.timestamp (email_at 10 9)) 3
          (HeartbeatEvent.timestamp (email_at 10 6))].
Proof. vm_compute. reflexivity. Qed.

Example tolerance_window :
  _detect_service_alerts
    (HeartbeatMonitor.new (MonitorConfig.mk 60 1 10 "UTC")) "email"
    [email_at 10 0;
     HeartbeatEvent.mk "email" (at_clock 1754265600000000 10 1 + timedelta 5);
     HeartbeatEvent.mk "email" (at_clock 1754265600000000 10 2 + timedelta 5)]
  = Some [].
Proof. vm_compute. reflexivity. Qed.

Example interval_zero_never_returns :
  _detect_service_alerts
    (HeartbeatMonitor.new (MonitorConfig.mk 0 3 0 "UTC")) "email"
    [email_at 10 0; email_at 10 1] = None.
Proof. vm_compute. reflexivity. Qed.

Example service_is_normalized :
  validate_service (PyStr "  EMAIL ") = Returns "email".
Proof. vm_compute. reflexivity. Qed.

Example service_number_has_no_strip :
  validate_service (PyInt 7) =
  AttributeError "'int' object has no attribute 'strip'".
Proof. vm_compute. reflexivity. Qed.

Example service_with_blank_inside :
  service_field (<["service" := PyStr "e mail"]> ∅) =
  FieldError {| loc := "service"; type := "string_pattern_mismatch";
                msg := "String should match pattern '^[a-zA-Z0-9_-]+$'" |}.
Proof. vm_compute. reflexivity. Qed.

(** * Properties *)

(** ** sorted *)

Section sorted_facts.
Context {A : Type} (key : A -> Z).



Lemma insert_by_HdRel a x l :
  a <= key x -> HdRel Z.le a (key <$> l) ->
  HdRel Z.le a (key <$> insert_by key x l).
Proof.
  intros Hx Hl. destruct l as [|y l]; simpl.
  - by constructor.
  - inversion_clear Hl. destruct (key y <? key x); simpl; by constructor.
Qed.

Lemma insert_by_Sorted x l :
  Sorted Z.le (key <$> l) -> Sorted Z.le (key <$> insert_by key x l).
Proof.
  induction l as [|y l IH]; simpl; intros Hl.
  - repeat constructor.
  - apply Sorted_inv in Hl as [Hl Hy].
    destruct (Z.ltb_spec (key y) (key x)); simpl.
    + constructor; [by apply IH|]. apply insert_by_HdRel; [lia|done].
    + constructor; [by constructor|]. by constructor.
Qed.

Lemma sorted_Sorted l : Sorted Z.le (key <$> sorted key l).
Proof.
  induction l as [|x l IH]; simpl; [constructor|]. by apply insert_by_Sorted.
Qed.


(** Stability: the elements of one key come out in their input order. *)
Lemma insert_by_filter k x l :
  Sorted Z.le (key <$> l) ->
  filter (fun y => key y = k) (insert_by key x l) =
  filter (fun y => key y = k) (x :: l).
Proof.
  induction l as [|y l IH]; simpl; intros Hl; [done|].
  apply Sorted_inv in Hl as [Hl Hy].
  destruct (Z.ltb_spec (key y) (key x)); [|done].
  rewrite !filter_cons, IH by done. rewrite !filter_cons.
  destruct (decide (key y = k)), (decide (key x = k)); try done. lia.
Qed.

Lemma sorted_stable k l :
  filter (fun y => key y = k) (sorted key l) = filter (fun y => key y = k) l.
Proof.
  induction l as [|x l IH]; simpl; [done|].
  rewrite insert_by_filter by apply sorted_Sorted.
  by rewrite !filter_cons, IH.
Qed.
End sorted_facts.


(** ** The loop over missed windows *)

Section scan.
Variable self : HeartbeatMonitor.t.
Variable service : string.

Local Abbreviation am := (MonitorConfig.allowed_misses (config self)).

Lemma remaining_zero e c :
  0 < interval self -> c <= e + tolerance self -> remaining self e c = 0.
Proof.
  intros HI Hc. unfold remaining.
  assert ((c - (e + tolerance self) + interval self - 1) / interval self <= 0);
    [|lia].
  apply Z.lt_succ_r, Z.div_lt_upper_bound; lia.
Qed.

Lemma remaining_step e c :
  0 < interval self -> e + tolerance self < c ->
  remaining self e c = 1 + remaining self (e + interval self) c /\
  0 <= remaining self (e + interval self) c.
Proof.
  intros HI Hc. unfold remaining.
  set (a := c - (e + tolerance self) + interval self - 1).
  replace (c - (e + interval self + tolerance self) + interval self - 1)
    with (a + (-1) * interval self) by (unfold a; lia).
  rewrite Z.div_add by lia.
  assert (1 <= a / interval self).
  { apply Z.div_le_lower_bound; unfold a; lia. }
  lia.
Qed.

Lemma remaining_fuel e c :
  0 < interval self ->
  (Z.to_nat (remaining self e c) <= while_fuel self c e)%nat.
Proof.
  intros HI. unfold remaining, while_fuel.
  set (x := c - (e + tolerance self)).
  assert ((x + interval self - 1) / interval self <= x / interval self + 1);
    [|lia].
  replace (x / interval self + 1) with ((x + 1 * interval self) / interval self)
    by (rewrite Z.div_add; lia).
  apply Z.div_le_mono; lia.
Qed.

Lemma missed_windows_remaining h c :
  missed_windows self h c = remaining self (h + interval self) c.
Proof. unfold missed_windows, remaining. do 2 f_equal. lia. Qed.

(** More fuel never changes what the loop returns. *)
Lemma while_missed_fuel_mono fuel fuel' c st e st' :
  (fuel <= fuel')%nat ->
  while_missed fuel self service c st e = Some st' ->
  while_missed fuel' self service c st e = Some st'.
Proof.
  revert fuel' st e. induction fuel as [|fuel IH]; intros fuel' st e Hle; simpl.
  - destruct (e + tolerance self <? c) eqn:Hc; [done|].
    destruct fuel'; simpl; by rewrite Hc.
  - destruct (e + tolerance self <? c) eqn:Hc.
    + destruct fuel' as [|fuel']; [lia|]. simpl. rewrite Hc.
      apply IH. lia.
    + destruct fuel'; simpl; by rewrite Hc.
Qed.

(** With an interval that is not positive, a loop that is entered never
    ends: no amount of fuel gives a result. *)
Lemma while_missed_diverges fuel c st e :
  interval self <= 0 -> e + tolerance self < c ->
  while_missed fuel self service c st e = None.
Proof.
  intros HI. revert st e. induction fuel as [|fuel IH]; intros st e Hc; simpl.
  - by destruct (Z.ltb_spec (e + tolerance self) c); [|lia].
  - destruct (Z.ltb_spec (e + tolerance self) c); [|lia].
    apply IH. lia.
Qed.

(** The loop, entered [m] misses after the anchor [last_heartbeat_time],
    emits one alert per completed block of [allowed_misses] misses. *)
Lemma while_missed_alerts fuel c st e :
  0 < interval self -> 1 <= am ->
  0 <= consecutive_misses st < am ->
  e = last_heartbeat_time st + (consecutive_misses st + 1) * interval self ->
  (Z.to_nat (remaining self e c) <= fuel)%nat ->
  exists st',
    while_missed fuel self service c st e = Some st' /\
    alerts st' =
      alerts st ++
      alerts_from self service (last_heartbeat_time st)
        (Z.to_nat ((consecutive_misses st + remaining self e c) / am)).
Proof.
  intros HI Ham. revert st e.
  induction fuel as [|fuel IH]; intros st e Hm He Hfuel.
  - destruct (Z.ltb_spec (e + tolerance self) c) as [Hc|Hc].
    + destruct (remaining_step e c HI Hc). lia.
    + exists st. simpl. destruct (Z.ltb_spec (e + tolerance self) c); [lia|].
      rewrite remaining_zero, Z.add_0_r, Z.div_small by lia.
      by rewrite app_nil_r.
  - simpl. destruct (Z.ltb_spec (e + tolerance self) c) as [Hc|Hc].
    + destruct (remaining_step e c HI Hc) as [Hr Hr0]. fold am.
      destruct (Z.leb_spec am (consecutive_misses st + 1)) as [Hal|Hal].
      * match goal with
        | |- context [while_missed _ _ _ _ ?s _] =>
            destruct (IH s (e + interval self)) as (st' & Hrun & Hst');
              simpl; [lia..|]
        end.
        exists st'. split; [exact Hrun|]. rewrite Hst'. simpl.
        rewrite <-app_assoc. f_equal. simpl.
        replace ((consecutive_misses st + remaining self e c) / am)
          with (1 + remaining self (e + interval self) c / am).
        2:{ rewrite Hr.
            replace (consecutive_misses st +
                     (1 + remaining self (e + interval self) c))
              with (remaining self (e + interval self) c + 1 * am) by lia.
            rewrite Z.div_add by lia. lia. }
        assert (0 <= remaining self (e + interval self) c / am)
          by (apply Z.div_pos; lia).
        rewrite Z2Nat.inj_add by lia. simpl. fold am.
        assert (am = consecutive_misses st + 1) as Heq by lia.
        rewrite He, <-Heq. done.
      * match goal with
        | |- context [while_missed _ _ _ _ ?s _] =>
            destruct (IH s (e + interval self)) as (st' & Hrun & Hst');
              simpl; [lia..|]
        end.
        exists st'. split; [exact Hrun|]. rewrite Hst'. simpl.
        do 4 f_equal. lia.
    + exists st. split; [done|].
      rewrite remaining_zero, Z.add_0_r, Z.div_small by lia.
      by rewrite app_nil_r.
Qed.

(** With a positive interval the loop ends, whatever the threshold and the
    counter it is entered with. *)
Lemma while_missed_total fuel c st e :
  0 < interval self ->
  (Z.to_nat (remaining self e c) <= fuel)%nat ->
  is_Some (while_missed fuel self service c st e).
Proof.
  intros HI. revert st e.
  induction fuel as [|fuel IH]; intros st e Hfuel; simpl;
    destruct (Z.ltb_spec (e + tolerance self) c) as [Hc|Hc]; try by eexists.
  - destruct (remaining_step e c HI Hc). lia.
  - destruct (remaining_step e c HI Hc). apply IH. lia.
Qed.

(** The fuel of the model is exact: one turn of the [for] loop gives no
    result only when the loop over missed windows is entered with an
    interval that is not positive, which is when the source loops forever. *)
Lemma for_body_returns_iff st ev :
  is_Some (for_body self service st ev) <->
  0 < interval self \/
  HeartbeatEvent.timestamp ev <=
    last_heartbeat_time st + interval self + tolerance self.
Proof.
  unfold for_body. split.
  - intros Hsome.
    destruct (Z.lt_ge_cases 0 (interval self)) as [?|HI]; [by left|]. right.
    destruct (Z.le_gt_cases (HeartbeatEvent.timestamp ev)
                (last_heartbeat_time st + interval self + tolerance self))
      as [?|Hc]; [done|].
    rewrite while_missed_diverges in Hsome by lia.
    by destruct Hsome.
  - intros [HI|Hc].
    + destruct (while_missed_total
                  (while_fuel self (HeartbeatEvent.timestamp ev)
                     (last_heartbeat_time st + interval self))
                  (HeartbeatEvent.timestamp ev) st
                  (last_heartbeat_time st + interval self) HI)
        as [st' ->]; [by apply remaining_fuel|]. by eexists.
    + destruct (while_fuel _ _ _); simpl;
        destruct (Z.ltb_spec (last_heartbeat_time st + interval self + tolerance self)
                    (HeartbeatEvent.timestamp ev)); try lia; by eexists.
Qed.
End scan.

(** ** The scan over the sorted events *)

Section detector.
Variable self : HeartbeatMonitor.t.
Variable service : string.
Hypothesis interval_pos : 0 < interval self.
Hypothesis misses_pos : 1 <= MonitorConfig.allowed_misses (config self).

Lemma for_body_alerts st ev :
  consecutive_misses st = 0 ->
  exists st',
    for_body self service st ev = Some st' /\
    alerts st' =
      alerts st ++
      gap_alerts self service (last_heartbeat_time st) (HeartbeatEvent.timestamp ev) /\
    consecutive_misses st' = 0 /\
    last_heartbeat_time st' = HeartbeatEvent.timestamp ev.
Proof.
  intros Hm. unfold for_body.
  destruct (while_missed_alerts self service
              (while_fuel self (HeartbeatEvent.timestamp ev)
                 (last_heartbeat_time st + interval self))
              (HeartbeatEvent.timestamp ev) st
              (last_heartbeat_time st + interval self))
    as (st' & Hrun & Hst'); try done.
  - lia.
  - rewrite Hm. lia.
  - by apply remaining_fuel.
  - rewrite Hrun. simpl. eexists. split; [done|]. simpl.
    split; [|done]. rewrite Hst', Hm, Z.add_0_l.
    unfold gap_alerts. by rewrite missed_windows_remaining.
Qed.

Lemma for_events_alerts st events :
  consecutive_misses st = 0 ->
  exists st',
    for_events self service st events = Some st' /\
    alerts st' =
      alerts st ++
      run_alerts self service (last_heartbeat_time st)
        (HeartbeatEvent.timestamp <$> events).
Proof.
  revert st. induction events as [|ev events IH]; intros st Hm; simpl.
  - exists st. by rewrite app_nil_r.
  - destruct (for_body_alerts st ev Hm) as (st1 & Hbody & Hal & Hm1 & Hlast).
    rewrite Hbody. simpl.
    destruct (IH st1 Hm1) as (st' & Hrun & Hst').
    exists st'. split; [done|].
    by rewrite Hst', Hal, Hlast, app_assoc.
Qed.

(** With a positive interval and threshold the detector returns, and what it
    returns is the closed form over the sorted timestamps. *)
Lemma detect_service_alerts_scan events :
  _detect_service_alerts self service events =
  Some (scan_alerts self service
          (HeartbeatEvent.timestamp <$> sorted HeartbeatEvent.timestamp events)).
Proof.
  unfold _detect_service_alerts.
  destruct events as [|e0 events]; [done|].
  destruct (sorted HeartbeatEvent.timestamp (e0 :: events)) as [|first rest];
    [done|].
  match goal with
  | |- context [for_events _ _ ?s _] =>
      destruct (for_events_alerts s rest) as (st' & Hrun & Hst'); [done|]
  end.
  rewrite Hrun. simpl. by rewrite Hst'.
Qed.
End detector.



(** With a validated configuration the two hypotheses of the scan hold. *)
Lemma valid_interval_pos cfg :
  MonitorConfig.valid cfg -> 0 < interval (HeartbeatMonitor.new cfg).
Proof. intros (? & ? & ?). simpl. unfold timedelta. lia. Qed.

Lemma valid_misses_pos cfg :
  MonitorConfig.valid cfg ->
  1 <= MonitorConfig.allowed_misses (config (HeartbeatMonitor.new cfg)).
Proof. by intros (? & ? & ?). Qed.

(** The detector is total on validated configurations. *)
Lemma detect_service_alerts_valid cfg service events :
  MonitorConfig.valid cfg ->
  _detect_service_alerts (HeartbeatMonitor.new cfg) service events =
  Some (scan_alerts (HeartbeatMonitor.new cfg) service
          (HeartbeatEvent.timestamp <$> sorted HeartbeatEvent.timestamp events)).
Proof.
  intros Hv. apply detect_service_alerts_scan;
    [by apply valid_interval_pos | by apply valid_misses_pos].
Qed.

(** ** The closed form *)

Section closed_form.
Variable self : HeartbeatMonitor.t.
Variable service : string.

Local Abbreviation am := (MonitorConfig.allowed_misses (config self)).



(** Every alert of a block reports the threshold, and lies one block of
    [allowed_misses] intervals after the instant it reports as last seen. *)
Lemma alerts_from_shape anchor n :
  Forall (fun a => Alert.missed_count a = am /\
                   Alert.alert_at a = Alert.last_seen a + am * interval self)
    (alerts_from self service anchor n).
Proof.
  revert anchor. induction n as [|n IH]; intros anchor; simpl; constructor; auto.
Qed.



Lemma run_alerts_Forall (P : Alert.t -> Prop) h later :
  (forall h' c, c ∈ later -> Forall P (gap_alerts self service h' c)) ->
  Forall P (run_alerts self service h later).
Proof.
  revert h. induction later as [|c later IH]; intros h HP; simpl; [constructor|].
  apply Forall_app. split.
  - apply HP. by left.
  - apply IH. intros h' c' Hc'. apply HP. by right.
Qed.

Lemma scan_alerts_Forall (P : Alert.t -> Prop) timestamps :
  (forall h c, c ∈ timestamps -> Forall P (gap_alerts self service h c)) ->
  Forall P (scan_alerts self service timestamps).
Proof.
  destruct timestamps as [|h later]; simpl; [constructor|]. intros HP.
  apply run_alerts_Forall. intros h' c Hc. apply HP. by right.
Qed.
End closed_form.






(** ** The gap detector *)

(** Closes [MonitorConfig.valid] on a concrete configuration. *)
Ltac valid_config := unfold MonitorConfig.valid; simpl; lia.

(** The constructor [Alert(...)] checks [missed_count >= 1]; the check always
    passes, which is why the model builds the record directly. *)
Lemma alerts_missed_count_ge_1 cfg service events :
  MonitorConfig.valid cfg ->
  exists alerts,
    _detect_service_alerts (HeartbeatMonitor.new cfg) service events = Some alerts /\
    Forall (fun a => 1 <= Alert.missed_count a) alerts.
Proof.
  intros Hv. eexists. split; [by apply detect_service_alerts_valid|].
  apply scan_alerts_Forall. intros h c _.
  eapply Forall_impl; [apply alerts_from_shape|].
  intros a [-> _]. by apply valid_misses_pos.
Qed.

(** C1 (scenario A).  One service with heartbeats at 10:00, 10:01 and 10:05 of
    one day, an expected interval of 60 seconds, 3 allowed misses and no
    tolerance: the detector emits exactly one alert, with [alert_at] 10:04,
    [missed_count] 3 and [last_seen] 10:01. *)
Theorem scenario_A_one_alert midnight service tz :
  _detect_service_alerts
    (HeartbeatMonitor.new (MonitorConfig.mk 60 3 0 tz)) service
    [HeartbeatEvent.mk service (at_clock midnight 10 0);
     HeartbeatEvent.mk service (at_clock midnight 10 1);
     HeartbeatEvent.mk service (at_clock midnight 10 5)] =
  Some [Alert.mk service (at_clock midnight 10 4) 3 (at_clock midnight 10 1)].
Proof.
  rewrite detect_service_alerts_valid by valid_config.
  f_equal. unfold sorted, at_clock, timedelta. simpl.
  repeat (match goal with
          | |- context [?a <? ?b] => destruct (Z.ltb_spec a b); [lia|]
          end; simpl).
  unfold gap_alerts, missed_windows. simpl.
  assert (forall a b, midnight + a - (midnight + b) - timedelta 0 - 1 = a - b - 1)
    as Hgap by (intros; unfold timedelta; lia).
  rewrite !Hgap.
  repeat match goal with
         | |- context [Z.to_nat ?x] =>
             let n := eval vm_compute in (Z.to_nat x) in
             change (Z.to_nat x) with n
         end.
  simpl. do 2 f_equal. unfold timedelta. lia.
Qed.







(** C9.  With no event or a single event the detector returns the empty list
    of alerts; it does so whatever the configuration. *)
Theorem fewer_than_two_events_no_alerts self service events :
  (length events < 2)%nat ->
  _detect_service_alerts self service events = Some [].
Proof.
  destruct events as [|e [|e' events]]; simpl; [done|done|lia].
Qed.

Lemma fewer_than_two_events_no_alerts_witness :
  (length [email_at 10 0] < 2)%nat /\
  _detect_service_alerts (HeartbeatMonitor.new cfg_60_3) "email" [email_at 10 0]
  = Some [].
Proof.
  assert (length [email_at 10 0] < 2)%nat as Hlen by (simpl; lia).
  split; [exact Hlen|]. exact (fewer_than_two_events_no_alerts _ _ _ Hlen).
Defined.








(** ** Validation *)

Lemma sum_values_empty : sum_values ∅ = 0.
Proof. apply map_fold_empty. Qed.

Lemma sum_values_increment reason m :
  sum_values (increment reason m) = sum_values m + 1.
Proof.
  unfold sum_values, increment.
  destruct (m !! reason) as [v|] eqn:Hlook; simpl.
  - rewrite <-insert_delete_eq.
    rewrite map_fold_insert_L; [|intros; lia|apply lookup_delete_eq].
    rewrite (map_fold_delete_L _ _ reason v m); [lia|intros; lia|done].
  - rewrite map_fold_insert_L; [lia|intros; lia|done].
Qed.

Section validation_facts.
Variable parse_datetime : pyval -> parsed.

(** Each record is either accepted or counted under exactly one reason. *)
Lemma validate_event_counts st idx raw_event :
  let st' := validate_event parse_datetime st idx raw_event in
  Z.of_nat (length (valid_events st')) + sum_values (skipped_reasons st') =
  Z.of_nat (length (valid_events st)) + sum_values (skipped_reasons st) + 1.
Proof.
  unfold validate_event.
  destruct (HeartbeatEvent_new parse_datetime raw_event); simpl.
  - rewrite length_app. simpl. lia.
  - rewrite sum_values_increment. lia.
  - rewrite sum_values_increment. lia.
Qed.

Lemma validate_from_counts st idx raw_events :
  let st' := validate_from parse_datetime st idx raw_events in
  Z.of_nat (length (valid_events st')) + sum_values (skipped_reasons st') =
  Z.of_nat (length (valid_events st)) + sum_values (skipped_reasons st) +
  Z.of_nat (length raw_events).
Proof.
  revert st idx. induction raw_events as [|raw_event more IH]; intros st idx; simpl.
  - lia.
  - rewrite IH. pose proof (validate_event_counts st idx raw_event) as Hstep.
    simpl in Hstep. lia.
Qed.

(** C7.  For every batch of raw records the counts of the validation result
    reconcile: valid plus invalid is the total, the total is the length of
    the input, and the values of [skipped_reasons] add up to the number of
    invalid records. *)
Theorem validation_counts_reconcile raw_events :
  let result := (_validate_events parse_datetime raw_events).2 in
  ValidationResult.valid_events result + ValidationResult.invalid_events result
    = ValidationResult.total_events result /\
  ValidationResult.total_events result = Z.of_nat (length raw_events) /\
  sum_values (ValidationResult.skipped_reasons result)
    = ValidationResult.invalid_events result.
Proof.
  simpl. split; [lia|]. split; [done|].
  pose proof (validate_from_counts
                {| valid_events := []; errors := []; skipped_reasons := ∅ |}
                0 raw_events) as Hcounts.
  simpl in Hcounts. rewrite sum_values_empty in Hcounts. lia.
Qed.

(** The constructor [ValidationResult(...)] checks that the three counts are
    not negative; the checks always pass. *)
Lemma validate_from_valid_le st idx raw_events :
  (length (valid_events (validate_from parse_datetime st idx raw_events)) <=
   length (valid_events st) + length raw_events)%nat.
Proof.
  revert st idx. induction raw_events as [|raw_event more IH]; intros st idx; simpl.
  - lia.
  - etrans; [apply IH|]. unfold validate_event.
    destruct (HeartbeatEvent_new parse_datetime raw_event); simpl;
      rewrite ?length_app; simpl; lia.
Qed.

Lemma validation_counts_nonneg raw_events :
  let result := (_validate_events parse_datetime raw_events).2 in
  0 <= ValidationResult.total_events result /\
  0 <= ValidationResult.valid_events result /\
  0 <= ValidationResult.invalid_events result.
Proof.
  simpl.
  pose proof (validate_from_valid_le
                {| valid_events := []; errors := []; skipped_reasons := ∅ |}
                0 raw_events) as Hle.
  simpl in Hle. lia.
Qed.

(** One message is recorded for each rejected record. *)
Lemma validate_from_errors st idx raw_events :
  let st' := validate_from parse_datetime st idx raw_events in
  (length (valid_events st') + length (errors st') =
   length (valid_events st) + length (errors st) + length raw_events)%nat.
Proof.
  revert st idx. induction raw_events as [|raw_event more IH]; intros st idx; simpl.
  - lia.
  - rewrite IH. unfold validate_event.
    destruct (HeartbeatEvent_new parse_datetime raw_event); simpl;
      rewrite ?length_app; simpl; lia.
Qed.

(** The number of accepted events is the length of the list handed on. *)
Lemma validation_valid_events_length raw_events :
  ValidationResult.valid_events (_validate_events parse_datetime raw_events).2 =
  Z.of_nat (length (_validate_events parse_datetime raw_events).1).
Proof. done. Qed.

(** The priority of the categories: a missing field comes first, an empty
    value second. *)
Lemma categorize_missing_service first d :
  d !! "service" = None ->
  _categorize_validation_error first d = "missing_service".
Proof.
  intros Hs. unfold _categorize_validation_error. rewrite Hs.
  rewrite bool_decide_eq_false_2; [done|]. by intros [? ?].
Qed.

Lemma categorize_missing_timestamp first d v :
  d !! "service" = Some v -> d !! "timestamp" = None ->
  _categorize_validation_error first d = "missing_timestamp".
Proof.
  intros Hs Ht. unfold _categorize_validation_error. rewrite Hs, Ht.
  by rewrite bool_decide_eq_true_2 by eauto.
Qed.

Lemma categorize_empty_service first d v w :
  d !! "service" = Some v -> d !! "timestamp" = Some w ->
  is_none_or_empty_str v = true ->
  _categorize_validation_error first d = "empty_service".
Proof.
  intros Hs Ht Hv. unfold _categorize_validation_error. rewrite Hs, Ht.
  rewrite !bool_decide_eq_true_2 by eauto. simpl. by rewrite Hv.
Qed.

(** A service that is a number, not a string: the validator fails on
    [v.strip()] with an [AttributeError], which the second handler counts as
    [unexpected_error], whether or not the timestamp is there. *)
Lemma numeric_service_counted_as_unexpected_error :
  ValidationResult.skipped_reasons
    (_validate_events parse_datetime [PyDict {["service" := PyInt 123]}]).2
  = {["unexpected_error" := 1]}.
Proof. by vm_compute. Qed.

(** C8, at a record the code categorizes against the stated priority.  The
    service of the record is three blanks: the validator of the model rejects
    it as an empty service name, yet the batch counts the record under
    [invalid_service_format], because the test for an empty value compares
    with [None] and with the empty string only. *)
Theorem blank_service_counted_as_invalid_format :
  let raw_event :=
    PyDict (<["service" := PyStr "   "]>
              (<["timestamp" := PyStr "2025-08-04T10:00:00Z"]> ∅)) in
  validate_service (PyStr "   ") = ValueError "Service name cannot be empty" /\
  ValidationResult.skipped_reasons (_validate_events parse_datetime [raw_event]).2
    = {["invalid_service_format" := 1]} /\
  ValidationResult.skipped_reasons (_validate_events parse_datetime [raw_event]).2
    !! "empty_service" = None.
Proof.
  simpl. split; [by vm_compute|].
  unfold validate_event, HeartbeatEvent_new, timestamp_field.
  replace (service_field _) with
    (@FieldError string
       {| loc := "service"; type := "value_error";
          msg := "Value error, Service name cannot be empty" |})
    by (by vm_compute).
  destruct (_ !! "timestamp") as [v|]; [destruct (parse_datetime v)|];
    by vm_compute.
Qed.
End validation_facts.


(** * Further properties *)

(** ** Grouping by service *)

Lemma first_seen_elem x l : x ∈ first_seen l <-> x ∈ l.
Proof.
  induction l as [|y l IH]; simpl; [done|].
  rewrite !elem_of_cons, list_elem_of_filter, IH.
  destruct (decide (x = y)); tauto.
Qed.

Lemma first_seen_NoDup l : NoDup (first_seen l).
Proof.
  induction l as [|y l IH]; simpl; constructor.
  - rewrite list_elem_of_filter. by intros [? _].
  - by apply NoDup_filter.
Qed.

Lemma first_seen_snoc l x :
  first_seen (l ++ [x]) =
  if decide (x ∈ l) then first_seen l else first_seen l ++ [x].
Proof.
  induction l as [|y l IH]; simpl; [done|].
  rewrite IH. destruct (decide (x = y)) as [->|Hne].
  - rewrite (decide_True (P := y ∈ y :: l)) by (by left).
    destruct (decide (y ∈ l)); [done|].
    rewrite filter_app, filter_cons, decide_False by (by intros ?).
    by rewrite filter_nil, app_nil_r.
  - destruct (decide (x ∈ l)) as [Hin|Hin].
    + by rewrite (decide_True (P := x ∈ y :: l)) by (by right).
    + rewrite (decide_False (P := x ∈ y :: l))
        by (by intros [?|?]%elem_of_cons).
      by rewrite filter_app, filter_cons, decide_True by done.
Qed.

Lemma events_of_snoc name events e :
  events_of name (events ++ [e]) =
  events_of name events ++
  (if decide (HeartbeatEvent.service e = name) then [e] else []).
Proof.
  unfold events_of. rewrite filter_app, filter_cons, filter_nil.
  by destruct (decide _).
Qed.

Lemma append_event_groups names events e :
  NoDup names ->
  append_event ((fun name => (name, events_of name events)) <$> names) e =
  if decide (HeartbeatEvent.service e ∈ names)
  then (fun name => (name, events_of name (events ++ [e]))) <$> names
  else ((fun name => (name, events_of name (events ++ [e]))) <$> names)
       ++ [(HeartbeatEvent.service e, [e])].
Proof.
  induction names as [|name names IH]; intros Hnd; csimpl; [done|].
  apply NoDup_cons in Hnd as [Hname Hnd]. rewrite events_of_snoc.
  destruct (decide (name = HeartbeatEvent.service e)) as [Heq|Hne].
  - subst name. rewrite !decide_True by (done || by left). f_equal.
    apply list_fmap_ext. intros _ name Hin%list_elem_of_lookup_2.
    rewrite events_of_snoc, decide_False, app_nil_r; [done|].
    intros <-. contradiction.
  - rewrite (decide_False (P := HeartbeatEvent.service e = name)), app_nil_r
      by congruence.
    rewrite IH by done.
    destruct (decide (HeartbeatEvent.service e ∈ names)) as [Hin|Hin].
    + by rewrite decide_True by (by right).
    + by rewrite decide_False by (by intros [?|?]%elem_of_cons).
Qed.

Lemma group_by_service_groups events :
  _group_by_service events =
  (fun name => (name, events_of name events)) <$>
  first_seen (HeartbeatEvent.service <$> events).
Proof.
  unfold _group_by_service.
  induction events as [|e events IH] using rev_ind; [done|].
  rewrite foldl_app. simpl. rewrite IH.
  rewrite append_event_groups by apply first_seen_NoDup.
  rewrite fmap_app. simpl. rewrite first_seen_snoc.
  destruct (decide (HeartbeatEvent.service e ∈ first_seen _)) as [Hin|Hin];
    rewrite first_seen_elem in Hin.
  - by rewrite decide_True.
  - rewrite decide_False by done. rewrite fmap_app. simpl. do 2 f_equal.
    rewrite events_of_snoc, decide_True by done.
    replace (events_of (HeartbeatEvent.service e) events) with
      (@nil HeartbeatEvent.t); [done|].
    symmetry. unfold events_of.
    destruct (filter _ events) as [|e' ?] eqn:Hf; [done|].
    assert (e' ∈ filter (fun e0 => HeartbeatEvent.service e0 =
                                   HeartbeatEvent.service e) events) as He'
      by (rewrite Hf; by left).
    apply list_elem_of_filter in He' as [Hs He'].
    destruct Hin. rewrite <-Hs. by apply list_elem_of_fmap_2.
Qed.

(** X1.  Grouping is a partition by service name: the services come in the
    order in which they first occur, and each of them holds its own events,
    all of them, in the order of the input. *)
Theorem group_by_service_partition events :
  _group_by_service events =
  (fun name => (name, events_of name events)) <$>
  first_seen (HeartbeatEvent.service <$> events).
Proof. apply group_by_service_groups. Qed.

Lemma concat_events_of names events :
  NoDup names ->
  (forall e, e ∈ events -> HeartbeatEvent.service e ∈ names) ->
  concat ((fun name => events_of name events) <$> names) ≡ₚ events.
Proof.
  revert events. induction names as [|name names IH]; intros events Hnd Hin.
  - destruct events as [|e events]; [done|].
    assert (HeartbeatEvent.service e ∈ @nil string) as Hbad
      by (apply Hin; by left).
    by apply elem_of_nil in Hbad.
  - apply NoDup_cons in Hnd as [Hname Hnd]. csimpl.
    etrans; [|apply (filter_app_complement
                       (fun e => HeartbeatEvent.service e = name) events)].
    unfold events_of at 1. apply Permutation_app; [done|].
    etrans; [|apply (IH (filter (fun e => ¬ HeartbeatEvent.service e = name)
                           events) Hnd)].
    2:{ intros e [Hne He]%list_elem_of_filter.
        apply Hin, elem_of_cons in He as [?|?]; done. }
    apply reflexive_eq. f_equal. apply list_fmap_ext.
    intros _ name' Hin'%list_elem_of_lookup_2. unfold events_of.
    rewrite list_filter_filter. apply list_filter_iff.
    intros e. split; [|by intros [? _]]. intros Heq. split; [done|].
    intros Heq'. apply Hname. by rewrite <-Heq', Heq.
Qed.

(** X2.  The service names of the groups are distinct, no group is empty, and
    the groups together hold each event of the input once. *)
Theorem group_by_service_keys events :
  NoDup (_group_by_service events).*1 /\
  Forall (fun group => group.2 <> []) (_group_by_service events) /\
  concat (_group_by_service events).*2 ≡ₚ events.
Proof.
  rewrite group_by_service_groups. split; [|split].
  - rewrite <-list_fmap_compose. simpl.
    rewrite list_fmap_id. apply first_seen_NoDup.
  - apply Forall_fmap, Forall_forall. intros name Hin. simpl.
    apply (proj1 (first_seen_elem _ _)) in Hin.
    apply list_elem_of_fmap in Hin as (e & -> & He).
    intros Hnil. eapply (filter_nil_not_elem_of _ _ e); [exact Hnil|done|done].
  - rewrite <-list_fmap_compose. apply concat_events_of.
    + apply first_seen_NoDup.
    + intros e He. apply first_seen_elem. by apply list_elem_of_fmap_2.
Qed.

(** ** The alerts of one service, seen from outside *)

Section alert_order.
Variable self : HeartbeatMonitor.t.
Variable service : string.
Hypothesis interval_pos : 0 < interval self.
Hypothesis misses_pos : 1 <= MonitorConfig.allowed_misses (config self).
Hypothesis tolerance_nonneg : 0 <= tolerance self.

Local Abbreviation am := (MonitorConfig.allowed_misses (config self)).








End alert_order.










Section gaps.
Variable self : HeartbeatMonitor.t.
Variable service : string.
Hypothesis interval_pos : 0 < interval self.
Hypothesis misses_pos : 1 <= MonitorConfig.allowed_misses (config self).
Hypothesis tolerance_nonneg : 0 <= tolerance self.

Local Abbreviation am := (MonitorConfig.allowed_misses (config self)).




End gaps.





(** ** One more heartbeat *)


Section one_more.
Variable self : HeartbeatMonitor.t.
Variable service : string.
Hypothesis interval_pos : 0 < interval self.
Hypothesis misses_pos : 1 <= MonitorConfig.allowed_misses (config self).
Hypothesis tolerance_nonneg : 0 <= tolerance self.

Local Abbreviation am := (MonitorConfig.allowed_misses (config self)).







End one_more.





(** ** Moving the batch in time *)







(** ** Validation of a batch *)

Lemma increment_lookup reason m k :
  default 0 (increment reason m !! k) =
  default 0 (m !! k) + (if decide (reason = k) then 1 else 0).
Proof.
  unfold increment. destruct (decide (reason = k)) as [->|Hne].
  - rewrite lookup_insert_eq. simpl. reflexivity.
  - rewrite lookup_insert_ne by done. symmetry. apply Z.add_0_r.
Qed.

Section batch.
Variable parse_datetime : pyval -> parsed.

Lemma validate_from_app st idx raw1 raw2 :
  validate_from parse_datetime st idx (raw1 ++ raw2) =
  validate_from parse_datetime (validate_from parse_datetime st idx raw1)
    (idx + Z.of_nat (length raw1)) raw2.
Proof.
  revert st idx. induction raw1 as [|raw raw1 IH]; intros st idx.
  - simpl. by rewrite Z.add_0_r.
  - cbn [app validate_from length]. rewrite IH, Nat2Z.inj_succ.
    f_equal. lia.
Qed.

Lemma validate_from_valid_events st idx raw_events :
  valid_events (validate_from parse_datetime st idx raw_events) =
  valid_events st ++ omap (accepted_event parse_datetime) raw_events.
Proof.
  revert st idx. induction raw_events as [|raw more IH]; intros st idx; simpl.
  - by rewrite app_nil_r.
  - rewrite IH. unfold validate_event, accepted_event.
    destruct (HeartbeatEvent_new parse_datetime raw); simpl;
      by rewrite <-?app_assoc.
Qed.

(** What one record adds to the table of reasons does not depend on the
    records before it. *)
Lemma validate_event_skipped st idx st' idx' raw k :
  default 0 (skipped_reasons (validate_event parse_datetime st idx raw) !! k)
  - default 0 (skipped_reasons st !! k) =
  default 0 (skipped_reasons (validate_event parse_datetime st' idx' raw) !! k)
  - default 0 (skipped_reasons st' !! k).
Proof.
  unfold validate_event.
  destruct (HeartbeatEvent_new parse_datetime raw); simpl;
    rewrite ?increment_lookup; lia.
Qed.

Lemma validate_from_skipped st idx st' idx' raw_events k :
  default 0 (skipped_reasons (validate_from parse_datetime st idx raw_events) !! k)
  - default 0 (skipped_reasons st !! k) =
  default 0 (skipped_reasons (validate_from parse_datetime st' idx' raw_events) !! k)
  - default 0 (skipped_reasons st' !! k).
Proof.
  revert st idx st' idx'.
  induction raw_events as [|raw more IH]; intros st idx st' idx'; simpl; [lia|].
  pose proof (IH (validate_event parse_datetime st idx raw) (idx + 1)
                (validate_event parse_datetime st' idx' raw) (idx' + 1)).
  pose proof (validate_event_skipped st idx st' idx' raw k). lia.
Qed.

Lemma skipped_app raw1 raw2 reason :
  skipped (_validate_events parse_datetime (raw1 ++ raw2)).2 reason =
  skipped (_validate_events parse_datetime raw1).2 reason +
  skipped (_validate_events parse_datetime raw2).2 reason.
Proof.
  unfold skipped. simpl. rewrite validate_from_app.
  pose proof (validate_from_skipped
                (validate_from parse_datetime
                   {| valid_events := []; errors := []; skipped_reasons := ∅ |}
                   0 raw1)
                (0 + Z.of_nat (length raw1))
                {| valid_events := []; errors := []; skipped_reasons := ∅ |}
                0 raw2 reason) as Hrel.
  simpl in Hrel. rewrite lookup_empty in Hrel. simpl in Hrel. lia.
Qed.

(** X11.  Validation works record by record: on two batches put one after
    the other, the accepted events are those of the first followed by those
    of the second, the three counts add up, and so does the count of every
    reason. *)
Theorem validate_events_app raw1 raw2 :
  (_validate_events parse_datetime (raw1 ++ raw2)).1 =
    (_validate_events parse_datetime raw1).1 ++
    (_validate_events parse_datetime raw2).1 /\
  ValidationResult.total_events (_validate_events parse_datetime (raw1 ++ raw2)).2 =
    ValidationResult.total_events (_validate_events parse_datetime raw1).2 +
    ValidationResult.total_events (_validate_events parse_datetime raw2).2 /\
  ValidationResult.valid_events (_validate_events parse_datetime (raw1 ++ raw2)).2 =
    ValidationResult.valid_events (_validate_events parse_datetime raw1).2 +
    ValidationResult.valid_events (_validate_events parse_datetime raw2).2 /\
  ValidationResult.invalid_events (_validate_events parse_datetime (raw1 ++ raw2)).2 =
    ValidationResult.invalid_events (_validate_events parse_datetime raw1).2 +
    ValidationResult.invalid_events (_validate_events parse_datetime raw2).2 /\
  forall reason,
    skipped (_validate_events parse_datetime (raw1 ++ raw2)).2 reason =
    skipped (_validate_events parse_datetime raw1).2 reason +
    skipped (_validate_events parse_datetime raw2).2 reason.
Proof.
  assert ((_validate_events parse_datetime (raw1 ++ raw2)).1 =
          (_validate_events parse_datetime raw1).1 ++
          (_validate_events parse_datetime raw2).1)
    as Hvalid.
  { simpl. rewrite !validate_from_valid_events. simpl. apply omap_app. }
  split; [exact Hvalid|]. simpl in *.
  rewrite Hvalid, !length_app. repeat split; try lia.
  apply skipped_app.
Qed.

(** X12.  One message is kept for each rejected record: the list of errors
    is as long as the number of invalid events. *)
Theorem one_error_for_each_invalid_event raw_events :
  Z.of_nat
    (length (ValidationResult.errors (_validate_events parse_datetime raw_events).2)) =
  ValidationResult.invalid_events (_validate_events parse_datetime raw_events).2.
Proof.
  simpl.
  pose proof (validate_from_errors parse_datetime
                {| valid_events := []; errors := []; skipped_reasons := ∅ |}
                0 raw_events) as Hlen.
  simpl in Hlen. lia.
Qed.
End batch.

(** ** Service names *)

Lemma rev_app_rev_app s1 s2 s3 :
  String.rev_app (String.rev_app s1 s2) s3 =
  String.rev_app s2 (String.app s1 s3).
Proof.
  revert s2 s3. induction s1 as [|a s1 IH]; intros s2 s3; simpl; [done|].
  by rewrite IH.
Qed.

Lemma string_app_empty_r s : String.app s "" = s.
Proof.
  induction s as [|a s IH]; simpl; [done|].
  unfold String.app in *. by rewrite IH.
Qed.

Lemma string_rev_involutive s : String.rev (String.rev s) = s.
Proof.
  unfold String.rev. rewrite rev_app_rev_app. simpl. apply string_app_empty_r.
Qed.

Lemma all_chars_rev_app p s1 s2 :
  all_chars p (String.rev_app s1 s2) = all_chars p s1 && all_chars p s2.
Proof.
  revert s2. induction s1 as [|a s1 IH]; intros s2; simpl; [done|].
  rewrite IH. simpl. destruct (p a), (all_chars p s1); done.
Qed.

Lemma all_chars_rev p s : all_chars p (String.rev s) = all_chars p s.
Proof.
  unfold String.rev. rewrite all_chars_rev_app. simpl. by rewrite andb_true_r.
Qed.

Lemma identifier_char_not_space c :
  identifier_char c = true -> py_isspace c = false.
Proof. destruct c as [[] [] [] [] [] [] [] []]; by vm_compute. Qed.

Lemma lower_char_idemp c : lower_char (lower_char c) = lower_char c.
Proof. destruct c as [[] [] [] [] [] [] [] []]; by vm_compute. Qed.

Lemma lower_idemp s : lower (lower s) = lower s.
Proof.
  induction s as [|c s IH]; simpl; [done|]. by rewrite lower_char_idemp, IH.
Qed.

Lemma lstrip_identifier s :
  all_chars identifier_char s = true -> lstrip s = s.
Proof.
  destruct s as [|c s]; simpl; [done|].
  intros [Hc _]%andb_true_iff. by rewrite identifier_char_not_space.
Qed.

Lemma strip_identifier s :
  all_chars identifier_char s = true -> strip s = s.
Proof.
  intros Hs. unfold strip. rewrite (lstrip_identifier s Hs).
  rewrite lstrip_identifier by (by rewrite all_chars_rev).
  apply string_rev_involutive.
Qed.

(** The service field passes only for a string, and what comes out is the
    string trimmed and in lower case. *)
Lemma service_field_ok d s :
  service_field d = FieldOk s <->
  exists s0,
    d !! "service" = Some (PyStr s0) /\
    s = lower (strip s0) /\
    matches_service_pattern s = true /\
    Z.of_nat (String.length s) <= 100.
Proof.
  unfold service_field, validate_service, constrained_str. split.
  - destruct (d !! "service") as [v|]; [|done].
    destruct (negb (truthy v)); [done|].
    destruct v as [| | | |s0| |]; try done.
    destruct (negb (truthy (PyStr (strip s0)))); [done|].
    destruct (Z.ltb_spec (Z.of_nat (String.length (lower (strip s0)))) 1);
      [done|].
    destruct (Z.ltb_spec 100 (Z.of_nat (String.length (lower (strip s0)))));
      [done|].
    destruct (matches_service_pattern (lower (strip s0))) eqn:Hm; [|done].
    simpl. intros [= <-]. by exists s0.
  - intros (s0 & -> & -> & Hm & Hlen).
    assert (lower (strip s0) <> "") as Hne.
    { intros Heq. rewrite Heq in Hm. by vm_compute in Hm. }
    assert (strip s0 <> "") as Hne' by (by intros Heq; rewrite Heq in Hne).
    assert (s0 <> "") as Hne''.
    { intros ->. by vm_compute in Hne'. }
    simpl. destruct (String.eqb_spec s0 ""); [done|]. simpl.
    destruct (String.eqb_spec (strip s0) ""); [done|]. simpl.
    destruct (Z.ltb_spec (Z.of_nat (String.length (lower (strip s0)))) 1) as [Hl|_].
    { destruct (lower (strip s0)); [done|]. simpl in Hl. lia. }
    destruct (Z.ltb_spec 100 (Z.of_nat (String.length (lower (strip s0)))));
      [lia|].
    by rewrite Hm.
Qed.

Section names.
Variable parse_datetime : pyval -> parsed.

Lemma HeartbeatEvent_new_constructed raw_event e :
  HeartbeatEvent_new parse_datetime raw_event = Constructed e <->
  exists d,
    raw_event = PyDict d /\
    service_field d = FieldOk (HeartbeatEvent.service e) /\
    timestamp_field parse_datetime d = FieldOk (HeartbeatEvent.timestamp e).
Proof.
  unfold HeartbeatEvent_new. split.
  - destruct raw_event as [| | | | | |d]; try done.
    destruct (service_field d) eqn:Hs,
             (timestamp_field parse_datetime d) eqn:Ht; try done.
    intros [= <-]. by exists d.
  - intros (d & -> & -> & ->). by destruct e.
Qed.

Lemma accepted_event_elem raw_events e :
  e ∈ (_validate_events parse_datetime raw_events).1 <->
  exists raw_event,
    raw_event ∈ raw_events /\
    HeartbeatEvent_new parse_datetime raw_event = Constructed e.
Proof.
  simpl. rewrite validate_from_valid_events. simpl.
  rewrite list_elem_of_omap. unfold accepted_event.
  split; intros (raw & Hin & Hacc); exists raw; split; try done.
  - by destruct (HeartbeatEvent_new parse_datetime raw) as [e'| |];
      simplify_eq.
  - by rewrite Hacc.
Qed.

Lemma accepted_service_normal raw_events :
  Forall (fun e =>
            matches_service_pattern (HeartbeatEvent.service e) = true /\
            Z.of_nat (String.length (HeartbeatEvent.service e)) <= 100 /\
            lower (HeartbeatEvent.service e) = HeartbeatEvent.service e /\
            strip (HeartbeatEvent.service e) = HeartbeatEvent.service e)
    (_validate_events parse_datetime raw_events).1.
Proof.
  apply Forall_forall. intros e (raw & _ & Hnew)%accepted_event_elem.
  apply HeartbeatEvent_new_constructed in Hnew as (d & _ & Hs & _).
  apply service_field_ok in Hs as (s0 & _ & Hs & Hm & Hlen).
  repeat split; try done.
  - rewrite Hs. apply lower_idemp.
  - apply strip_identifier.
    unfold matches_service_pattern in Hm. by apply andb_true_iff in Hm as [_ ?].
Qed.

(** X13.  Every accepted event carries a normalized service name: it fits
    the pattern of the field, has at most 100 characters, is in lower case
    and has no blank at either end. *)
Theorem accepted_service_is_normalized raw_events :
  Forall (fun e =>
            matches_service_pattern (HeartbeatEvent.service e) = true /\
            Z.of_nat (String.length (HeartbeatEvent.service e)) <= 100 /\
            lower (HeartbeatEvent.service e) = HeartbeatEvent.service e /\
            strip (HeartbeatEvent.service e) = HeartbeatEvent.service e)
    (_validate_events parse_datetime raw_events).1.
Proof. apply accepted_service_normal. Qed.

(** X14.  Validation is idempotent on what it accepts: a record made of the
    service name of an accepted event and of a timestamp that parses to its
    instant is accepted again, as the same event. *)
Theorem accepted_event_accepted_again raw_events e timestamp :
  e ∈ (_validate_events parse_datetime raw_events).1 ->
  parse_datetime timestamp = Parsed (HeartbeatEvent.timestamp e) ->
  (_validate_events parse_datetime
     [record (PyStr (HeartbeatEvent.service e)) timestamp]).1 = [e].
Proof.
  intros He Hparse.
  pose proof (accepted_service_normal raw_events) as Hnorm.
  rewrite Forall_forall in Hnorm.
  destruct (Hnorm e He) as (Hm & Hlen & Hlow & Hstrip).
  simpl. unfold validate_event.
  replace (HeartbeatEvent_new parse_datetime _) with (Constructed e); [done|].
  symmetry. apply HeartbeatEvent_new_constructed. eexists. split; [done|].
  split.
  - apply service_field_ok. exists (HeartbeatEvent.service e).
    rewrite lookup_insert_eq, Hstrip, Hlow. done.
  - unfold timestamp_field.
    rewrite lookup_insert_ne, lookup_insert_eq by done. by rewrite Hparse.
Qed.
End names.

(** ** Reasons of rejection *)

(** Finds an element in a list that is written out. *)
Ltac in_list := first [by left | right; in_list].

Lemma service_field_error d first :
  service_field d = FieldError first ->
  loc first = "service" /\ contains "datetime" (type first) = false.
Proof.
  unfold service_field, validate_service, constrained_str.
  destruct (d !! "service") as [v|]; [|by intros [= <-]].
  destruct (negb (truthy v)); [by intros [= <-]|].
  destruct v as [| | | |s0| |]; try done.
  destruct (negb (truthy (PyStr (strip s0)))); [by intros [= <-]|].
  destruct (_ <? 1); [by intros [= <-]|].
  destruct (100 <? _); [by intros [= <-]|].
  destruct (negb (matches_service_pattern _)); [by intros [= <-]|done].
Qed.

Lemma increment_empty reason : increment reason ∅ = {[reason := 1]}.
Proof. unfold increment. by rewrite lookup_empty, insert_empty. Qed.

Section reasons.
Variable parse_datetime : pyval -> parsed.

Lemma timestamp_field_error d first :
  timestamp_field parse_datetime d = FieldError first -> loc first = "timestamp".
Proof.
  unfold timestamp_field. destruct (d !! "timestamp") as [v|]; [|by intros [= <-]].
  destruct (parse_datetime v); [done|by intros [= <-]].
Qed.

Lemma timestamp_field_no_raise d exc :
  timestamp_field parse_datetime d <> FieldRaise exc.
Proof.
  unfold timestamp_field. destruct (d !! "timestamp") as [v|]; [|done].
  by destruct (parse_datetime v).
Qed.

(** The first error of a [ValidationError] is the error of the service field
    when there is one, that of the timestamp field otherwise. *)
Lemma HeartbeatEvent_new_error raw_event first rest :
  HeartbeatEvent_new parse_datetime raw_event = ValidationError first rest ->
  exists d,
    raw_event = PyDict d /\
    (service_field d = FieldError first \/
     (exists s, service_field d = FieldOk s) /\
     timestamp_field parse_datetime d = FieldError first).
Proof.
  unfold HeartbeatEvent_new. destruct raw_event as [| | | | | |d]; try done.
  destruct (service_field d) eqn:Hs, (timestamp_field parse_datetime d) eqn:Ht;
    try done; intros [= <- <-]; exists d; split; eauto.
Qed.

Lemma categorize_known first d :
  loc first = "service" \/ loc first = "timestamp" ->
  _categorize_validation_error first d ∈
    ["missing_service"; "missing_timestamp"; "empty_service"; "empty_timestamp";
     "invalid_timestamp_format"; "invalid_service_format"].
Proof.
  intros Hloc. unfold _categorize_validation_error.
  repeat match goal with
         | |- context [if ?b then _ else _] =>
             destruct b eqn:?; [in_list|]
         end.
  destruct Hloc as [Hloc|Hloc]; rewrite Hloc in *; by vm_compute in *.
Qed.

Lemma validate_event_reasons st idx raw_event :
  (forall reason n, skipped_reasons st !! reason = Some n ->
     1 <= n /\
     reason ∈ ["missing_service"; "missing_timestamp"; "empty_service";
               "empty_timestamp"; "invalid_timestamp_format";
               "invalid_service_format"; "unexpected_error"]) ->
  forall reason n,
    skipped_reasons (validate_event parse_datetime st idx raw_event) !! reason
    = Some n ->
    1 <= n /\
    reason ∈ ["missing_service"; "missing_timestamp"; "empty_service";
              "empty_timestamp"; "invalid_timestamp_format";
              "invalid_service_format"; "unexpected_error"].
Proof.
  intros Hst reason n. unfold validate_event.
  destruct (HeartbeatEvent_new parse_datetime raw_event) as [e|first rest|exc]
    eqn:Hnew; simpl; [by apply Hst| |].
  - apply HeartbeatEvent_new_error in Hnew as (d & -> & Hfirst).
    assert (loc first = "service" \/ loc first = "timestamp") as Hloc.
    { destruct Hfirst as [Hs|[_ Ht]].
      - left. by apply service_field_error in Hs as [? _].
      - right. by apply timestamp_field_error in Ht. }
    pose proof (categorize_known first d Hloc) as Hknown.
    unfold increment.
    destruct (decide (_categorize_validation_error first d = reason)) as [<-|Hne].
    + rewrite lookup_insert_eq. intros [= <-].
      split.
      2:{ apply (proj2 (elem_of_app
                          ["missing_service"; "missing_timestamp";
                           "empty_service"; "empty_timestamp";
                           "invalid_timestamp_format"; "invalid_service_format"]
                          ["unexpected_error"] _)).
          by left. }
      destruct (skipped_reasons st !! _) as [m|] eqn:Hm; simpl; [|lia].
      apply Hst in Hm as [? _]. lia.
    + rewrite lookup_insert_ne by done. apply Hst.
  - unfold increment.
    destruct (decide ("unexpected_error" = reason)) as [<-|Hne].
    + rewrite lookup_insert_eq. intros [= <-]. split; [|in_list].
      destruct (skipped_reasons st !! _) as [m|] eqn:Hm; simpl; [|lia].
      apply Hst in Hm as [? _]. lia.
    + rewrite lookup_insert_ne by done. apply Hst.
Qed.

Lemma validate_from_reasons st idx raw_events :
  (forall reason n, skipped_reasons st !! reason = Some n ->
     1 <= n /\
     reason ∈ ["missing_service"; "missing_timestamp"; "empty_service";
               "empty_timestamp"; "invalid_timestamp_format";
               "invalid_service_format"; "unexpected_error"]) ->
  forall reason n,
    skipped_reasons (validate_from parse_datetime st idx raw_events) !! reason
    = Some n ->
    1 <= n /\
    reason ∈ ["missing_service"; "missing_timestamp"; "empty_service";
              "empty_timestamp"; "invalid_timestamp_format";
              "invalid_service_format"; "unexpected_error"].
Proof.
  revert st idx. induction raw_events as [|raw more IH]; intros st idx Hst; simpl.
  - apply Hst.
  - apply IH. by apply validate_event_reasons.
Qed.

(** X15.  The table of reasons holds only the seven reasons the code can
    give, each with a count of at least one; [validation_error], the fallback
    of the categorizer, never appears.  *)
Theorem skipped_reasons_known raw_events reason n :
  ValidationResult.skipped_reasons (_validate_events parse_datetime raw_events).2
    !! reason = Some n ->
  1 <= n /\
  reason ∈ ["missing_service"; "missing_timestamp"; "empty_service";
            "empty_timestamp"; "invalid_timestamp_format";
            "invalid_service_format"; "unexpected_error"].
Proof.
  simpl. apply validate_from_reasons. intros ? ?. simpl. by rewrite lookup_empty.
Qed.
End reasons.

Section one_record.
Variable parse_datetime : pyval -> parsed.

Lemma validate_single_error d first rest :
  HeartbeatEvent_new parse_datetime (PyDict d) = ValidationError first rest ->
  (_validate_events parse_datetime [PyDict d]).1 = [] /\
  ValidationResult.skipped_reasons (_validate_events parse_datetime [PyDict d]).2 =
  {[_categorize_validation_error first d := 1]}.
Proof.
  intros Hnew. simpl. unfold validate_event. rewrite Hnew. simpl.
  by rewrite increment_empty.
Qed.

Lemma validate_single_exception raw_event exc :
  HeartbeatEvent_new parse_datetime raw_event = OtherException exc ->
  (_validate_events parse_datetime [raw_event]).1 = [] /\
  ValidationResult.skipped_reasons (_validate_events parse_datetime [raw_event]).2 =
  {["unexpected_error" := 1]}.
Proof.
  intros Hnew. simpl. unfold validate_event. rewrite Hnew. simpl.
  by rewrite increment_empty.
Qed.

Lemma service_field_no_raise d v :
  d !! "service" = Some v ->
  (truthy v = true -> exists s, v = PyStr s) ->
  forall exc, service_field d <> FieldRaise exc.
Proof.
  intros Hv Hstr exc. unfold service_field, validate_service. rewrite Hv.
  destruct (truthy v) eqn:Ht; simpl; [|done].
  destruct (Hstr eq_refl) as [s ->]. unfold constrained_str.
  repeat match goal with
         | |- context [if ?b then _ else _] => destruct b; simpl
         end; done.
Qed.

(** X16.  A mapping without a [service] key is always rejected, and counted
    as [missing_service], whatever else it holds. *)
Theorem no_service_key_is_missing_service d :
  d !! "service" = None ->
  (_validate_events parse_datetime [PyDict d]).1 = [] /\
  ValidationResult.skipped_reasons (_validate_events parse_datetime [PyDict d]).2 =
  {["missing_service" := 1]}.
Proof.
  intros Hs.
  assert (service_field d = FieldError (missing "service")) as Hfield
    by (unfold service_field; by rewrite Hs).
  assert (exists rest, HeartbeatEvent_new parse_datetime (PyDict d) =
                       ValidationError (missing "service") rest) as [rest Hnew].
  { unfold HeartbeatEvent_new. rewrite Hfield.
    destruct (timestamp_field parse_datetime d) eqn:Ht; eauto.
    by destruct (timestamp_field_no_raise parse_datetime d exc). }
  destruct (validate_single_error d _ _ Hnew) as [Hvalid Hreasons].
  by rewrite Hvalid, Hreasons, categorize_missing_service.
Qed.

(** X17.  A missing key comes before an empty value: a mapping with a
    [service] that is a string or a false value, and without a [timestamp]
    key, is counted as [missing_timestamp], also when the service is empty
    or ill-formed. *)
Theorem no_timestamp_key_is_missing_timestamp d v :
  d !! "service" = Some v ->
  (truthy v = true -> exists s, v = PyStr s) ->
  d !! "timestamp" = None ->
  (_validate_events parse_datetime [PyDict d]).1 = [] /\
  ValidationResult.skipped_reasons (_validate_events parse_datetime [PyDict d]).2 =
  {["missing_timestamp" := 1]}.
Proof.
  intros Hs Hstr Ht.
  assert (timestamp_field parse_datetime d = FieldError (missing "timestamp"))
    as Hfield by (unfold timestamp_field; by rewrite Ht).
  assert (exists first rest, HeartbeatEvent_new parse_datetime (PyDict d) =
                             ValidationError first rest) as (first & rest & Hnew).
  { unfold HeartbeatEvent_new. rewrite Hfield.
    destruct (service_field d) eqn:Hsf; eauto.
    by destruct (service_field_no_raise d v Hs Hstr exc). }
  destruct (validate_single_error d _ _ Hnew) as [Hvalid Hreasons].
  by rewrite Hvalid, Hreasons, (categorize_missing_timestamp first d v).
Qed.

(** X18.  A rejected mapping that has both keys is counted by its raw values,
    in this order: [empty_service] when the service is [None] or the empty
    string, else [empty_timestamp] when the timestamp is, else
    [invalid_service_format] when the service field failed, whatever the
    timestamp is worth, else [invalid_timestamp_format]. *)
Theorem both_keys_reason d v w first rest :
  d !! "service" = Some v ->
  d !! "timestamp" = Some w ->
  HeartbeatEvent_new parse_datetime (PyDict d) = ValidationError first rest ->
  ValidationResult.skipped_reasons (_validate_events parse_datetime [PyDict d]).2 =
  {[ (if is_none_or_empty_str v then "empty_service"
      else if is_none_or_empty_str w then "empty_timestamp"
      else match service_field d with
           | FieldOk _ => "invalid_timestamp_format"
           | _ => "invalid_service_format"
           end) := 1 ]}.
Proof.
  intros Hs Ht Hnew.
  destruct (validate_single_error d _ _ Hnew) as [_ ->]. f_equal.
  unfold _categorize_validation_error. rewrite Hs, Ht.
  rewrite !bool_decide_eq_true_2 by eauto. simpl.
  destruct (is_none_or_empty_str v); [done|].
  destruct (is_none_or_empty_str w); [done|].
  apply HeartbeatEvent_new_error in Hnew as (d' & [= <-] & Hfirst).
  destruct Hfirst as [Hsf|[[s Hsf] Htf]]; rewrite Hsf.
  - apply service_field_error in Hsf as [-> ->]. by vm_compute.
  - apply timestamp_field_error in Htf as ->. by vm_compute.
Qed.

(** X19.  A record that is not a mapping, and a mapping whose service is a
    true value other than a string, are counted as [unexpected_error]: the
    constructor leaves with an exception that is not a [ValidationError], and
    no priority check is run, not even for a missing timestamp. *)
Theorem not_a_mapping_or_odd_service_is_unexpected raw_event :
  (forall d, raw_event <> PyDict d) \/
  (exists d v, raw_event = PyDict d /\ d !! "service" = Some v /\
               truthy v = true /\ forall s, v <> PyStr s) ->
  (_validate_events parse_datetime [raw_event]).1 = [] /\
  ValidationResult.skipped_reasons (_validate_events parse_datetime [raw_event]).2 =
  {["unexpected_error" := 1]}.
Proof.
  intros Hraw.
  assert (exists exc, HeartbeatEvent_new parse_datetime raw_event =
                      OtherException exc) as [exc Hnew].
  { destruct Hraw as [Hnot|(d & v & -> & Hs & Hv & Hstr)].
    - destruct raw_event; simpl; eauto. by destruct (Hnot d).
    - unfold HeartbeatEvent_new, service_field, validate_service.
      rewrite Hs, Hv. simpl. destruct v; eauto. by destruct (Hstr s). }
  by apply (validate_single_exception _ exc).
Qed.
End one_record.

(** ** The entry point *)

Lemma scan_alerts_service self name timestamps :
  Forall (fun a => Alert.service a = name) (scan_alerts self name timestamps).
Proof.
  apply scan_alerts_Forall. intros h c _. unfold gap_alerts.
  generalize (Z.to_nat (missed_windows self h c /
                        MonitorConfig.allowed_misses (config self))).
  intros n. revert h. induction n as [|n IH]; intros h; simpl; constructor; auto.
Qed.

Lemma filter_all {A} (P : A -> Prop) `{forall x, Decision (P x)} l :
  Forall P l -> filter P l = l.
Proof.
  induction 1 as [|x l Hx Hl IH]; [done|].
  by rewrite filter_cons, decide_True, IH.
Qed.

Lemma filter_none {A} (P : A -> Prop) `{forall x, Decision (P x)} l :
  Forall (fun x => ~ P x) l -> filter P l = [].
Proof.
  induction 1 as [|x l Hx Hl IH]; [done|].
  by rewrite filter_cons, decide_False.
Qed.

Lemma filter_concat {A} (P : A -> Prop) `{forall x, Decision (P x)} ls :
  filter P (concat ls) = concat (filter P <$> ls).
Proof.
  induction ls as [|l ls IH]; csimpl; [done|]. by rewrite filter_app, IH.
Qed.

Section entry.
Variable parse_datetime : pyval -> parsed.
Variable self : HeartbeatMonitor.t.
Hypothesis interval_pos : 0 < interval self.
Hypothesis misses_pos : 1 <= MonitorConfig.allowed_misses (config self).

Local Abbreviation service_scan := (fun events name =>
  scan_alerts self name
    (HeartbeatEvent.timestamp <$>
     sorted HeartbeatEvent.timestamp (events_of name events))).

Lemma detect_each_scan events names all_alerts :
  detect_each self ((fun name => (name, events_of name events)) <$> names)
    all_alerts =
  Some (all_alerts ++ concat (service_scan events <$> names)).
Proof.
  revert all_alerts.
  induction names as [|name names IH]; intros all_alerts; csimpl.
  - by rewrite app_nil_r.
  - rewrite detect_service_alerts_scan by done. csimpl.
    by rewrite IH, app_assoc.
Qed.


Lemma detect_alerts_scan start_time end_time raw_events :
  detect_alerts parse_datetime self start_time end_time raw_events =
  MonitorResult_new
    (concat (service_scan (_validate_events parse_datetime raw_events).1 <$>
             first_seen (HeartbeatEvent.service <$>
                         (_validate_events parse_datetime raw_events).1)))
    (_validate_events parse_datetime raw_events).2
    (first_seen (HeartbeatEvent.service <$>
                 (_validate_events parse_datetime raw_events).1))
    (end_time - start_time) end_time.
Proof.
  unfold detect_alerts.
  destruct (_validate_events parse_datetime raw_events) as [valid result] eqn:Hv.
  rewrite group_by_service_groups, detect_each_scan. simpl.
  by rewrite <-list_fmap_compose, list_fmap_id.
Qed.

Lemma filter_service_scan events names service :
  NoDup names ->
  filter (fun a => Alert.service a = service)
    (concat (service_scan events <$> names)) =
  if decide (service ∈ names) then service_scan events service else [].
Proof.
  induction names as [|name names IH]; intros Hnd; csimpl; [done|].
  apply NoDup_cons in Hnd as [Hname Hnd]. rewrite filter_app, IH by done.
  pose proof (scan_alerts_service self name
                (HeartbeatEvent.timestamp <$>
                 sorted HeartbeatEvent.timestamp (events_of name events)))
    as Hsvc.
  destruct (decide (name = service)) as [->|Hne].
  - rewrite (decide_True (P := service ∈ service :: names)) by (by left).
    rewrite decide_False by done. rewrite app_nil_r. by apply filter_all.
  - rewrite filter_none
      by (eapply Forall_impl; [exact Hsvc|]; simpl; intros a -> ; done).
    simpl. destruct (decide (service ∈ names)) as [Hin|Hin].
    + by rewrite decide_True by (by right).
    + by rewrite decide_False by (by intros [?|?]%elem_of_cons).
Qed.
End entry.

Section entry_properties.
Variable parse_datetime : pyval -> parsed.


Lemma detect_alerts_filter self start_time end_time raw_events result service :
  0 < interval self ->
  1 <= MonitorConfig.allowed_misses (config self) ->
  detect_alerts parse_datetime self start_time end_time raw_events
  = Returned result ->
  filter (fun a => Alert.service a = service) (MonitorResult.alerts result) =
  scan_alerts self service
    (HeartbeatEvent.timestamp <$>
     sorted HeartbeatEvent.timestamp
       (events_of service (_validate_events parse_datetime raw_events).1)).
Proof.
  intros HI Ham. rewrite detect_alerts_scan by done. unfold MonitorResult_new.
  destruct (_ <? 0); [done|]. intros [= <-]. simpl.
  rewrite filter_service_scan by (done || apply first_seen_NoDup).
  destruct (decide (service ∈ first_seen _)) as [Hin|Hin]; [done|].
  replace (events_of service (validate_from parse_datetime _ 0 raw_events).(valid_events))
    with (@nil HeartbeatEvent.t); [done|].
  symmetry. unfold events_of.
  destruct (filter _ _) as [|e ?] eqn:Hf; [done|].
  assert (e ∈ filter (fun e0 => HeartbeatEvent.service e0 = service)
                (valid_events
                   (validate_from parse_datetime
                      {| valid_events := []; errors := []; skipped_reasons := ∅ |}
                      0 raw_events))) as He by (rewrite Hf; by left).
  apply list_elem_of_filter in He as [Hs He].
  destruct Hin. apply first_seen_elem. rewrite <-Hs.
  by apply list_elem_of_fmap_2.
Qed.

(** X21.  Services do not touch each other: for every service name, the
    alerts of the result that carry this name are what the detector returns
    on the accepted events of this service alone. *)
Theorem detect_alerts_per_service cfg start_time end_time raw_events result
    service :
  MonitorConfig.valid cfg ->
  detect_alerts parse_datetime (HeartbeatMonitor.new cfg)
    start_time end_time raw_events = Returned result ->
  _detect_service_alerts (HeartbeatMonitor.new cfg) service
    (events_of service (_validate_events parse_datetime raw_events).1) =
  Some (filter (fun a => Alert.service a = service)
          (MonitorResult.alerts result)).
Proof.
  intros Hv Hres.
  pose proof (valid_interval_pos cfg Hv) as HI.
  pose proof (valid_misses_pos cfg Hv) as Ham.
  rewrite detect_service_alerts_scan by done. f_equal. symmetry.
  by eapply detect_alerts_filter.
Qed.

(** X22.  What holds for the alerts of one service holds for the whole
    result: every alert names a monitored service, reports exactly
    [allowed_misses] misses, and lies [allowed_misses] intervals after the
    instant it reports as last seen. *)
Theorem detect_alerts_all_alerts cfg start_time end_time raw_events result :
  MonitorConfig.valid cfg ->
  detect_alerts parse_datetime (HeartbeatMonitor.new cfg)
    start_time end_time raw_events = Returned result ->
  Forall (fun a =>
            Alert.service a ∈ MonitorResult.services_monitored result /\
            Alert.missed_count a = MonitorConfig.allowed_misses cfg /\
            Alert.alert_at a =
              Alert.last_seen a +
              timedelta (MonitorConfig.allowed_misses cfg *
                         MonitorConfig.expected_interval_seconds cfg))
    (MonitorResult.alerts result).
Proof.
  intros Hv.
  pose proof (valid_interval_pos cfg Hv) as HI.
  pose proof (valid_misses_pos cfg Hv) as Ham.
  rewrite detect_alerts_scan by done. unfold MonitorResult_new.
  destruct (_ <? 0); [done|]. intros [= <-]. simpl.
  apply Forall_concat, Forall_fmap, Forall_forall. intros name Hname. simpl.
  pose proof (scan_alerts_service (HeartbeatMonitor.new cfg) name
                (HeartbeatEvent.timestamp <$>
                 sorted HeartbeatEvent.timestamp
                   (events_of name
                      (valid_events
                         (validate_from parse_datetime
                            {| valid_events := []; errors := [];
                               skipped_reasons := ∅ |} 0 raw_events)))))
    as Hsvc.
  eapply Forall_impl.
  - apply Forall_and. split; [exact Hsvc|].
    apply scan_alerts_Forall. intros h c _. apply alerts_from_shape.
  - simpl. intros a (-> & -> & ->). repeat split; [done|].
    unfold timedelta. lia.
Qed.

(** X23.  A batch without an accepted event gives a result without alerts
    and without services, for every configuration, validated or not. *)
Theorem detect_alerts_nothing_accepted self start_time end_time raw_events :
  (_validate_events parse_datetime raw_events).1 = [] ->
  start_time <= end_time ->
  detect_alerts parse_datetime self start_time end_time raw_events =
  Returned (MonitorResult.mk [] (_validate_events parse_datetime raw_events).2 []
              (end_time - start_time) end_time).
Proof.
  intros Hnone Hclock. unfold detect_alerts.
  destruct (_validate_events parse_datetime raw_events) as [valid result].
  simpl in Hnone. subst valid. simpl. unfold MonitorResult_new.
  by destruct (Z.ltb_spec (end_time - start_time) 0); [lia|].
Qed.

(** X24.  The result is checked on the way out: when the second reading of
    the clock is earlier than the first, the constructor of the result
    rejects the negative duration and the entry point raises. *)
Theorem detect_alerts_clock_went_back cfg start_time end_time raw_events :
  MonitorConfig.valid cfg ->
  end_time < start_time ->
  detect_alerts parse_datetime (HeartbeatMonitor.new cfg)
    start_time end_time raw_events =
  Raised [{| loc := "monitoring_duration_ms"; type := "greater_than_equal";
             msg := "Input should be greater than or equal to 0" |}].
Proof.
  intros Hv Hclock.
  rewrite detect_alerts_scan
    by (by apply valid_interval_pos || by apply valid_misses_pos).
  unfold MonitorResult_new.
  by destruct (Z.ltb_spec (end_time - start_time) 0); [|lia].
Qed.


End entry_properties.



(** ** The configuration *)

Lemma MonitorConfig_new_accepts_1 interval misses tolerance cfg :
  MonitorConfig_new interval misses tolerance = inr cfg ->
  cfg = MonitorConfig.mk interval misses tolerance "UTC" /\
  1 <= interval <= 86400 /\ 1 <= misses <= 100 /\ 0 <= tolerance.
Proof.
  unfold MonitorConfig_new, check_ge, check_le.
  destruct (Z.ltb_spec interval 1), (Z.ltb_spec 86400 interval),
           (Z.ltb_spec misses 1), (Z.ltb_spec 100 misses),
           (Z.ltb_spec tolerance 0); simpl; try done.
  intros [= <-]. repeat split; lia.
Qed.

(** The constructor of the configuration returns exactly within the bounds
    of the fields: an interval from 1 second to one day, from 1 to 100
    allowed misses, a tolerance that is not negative; [timezone] is [UTC]. *)
Lemma MonitorConfig_new_accepts interval misses tolerance cfg :
  MonitorConfig_new interval misses tolerance = inr cfg <->
  cfg = MonitorConfig.mk interval misses tolerance "UTC" /\
  1 <= interval <= 86400 /\ 1 <= misses <= 100 /\ 0 <= tolerance.
Proof.
  split; [apply MonitorConfig_new_accepts_1|].
  intros (-> & ? & ? & ?). unfold MonitorConfig_new, check_ge, check_le.
  by destruct (Z.ltb_spec interval 1), (Z.ltb_spec 86400 interval),
             (Z.ltb_spec misses 1), (Z.ltb_spec 100 misses),
             (Z.ltb_spec tolerance 0); simpl; try lia.
Qed.


(** ** Witnesses on a concrete batch *)

Lemma accepted_event_accepted_again_witness :
  HeartbeatEvent.mk "email" (timedelta 60) ∈
    (_validate_events unix_seconds_parser sample_batch).1 /\
  unix_seconds_parser (PyInt 60) =
    Parsed (HeartbeatEvent.timestamp (HeartbeatEvent.mk "email" (timedelta 60))) /\
  (_validate_events unix_seconds_parser
     [record (PyStr (HeartbeatEvent.service
                       (HeartbeatEvent.mk "email" (timedelta 60))))
        (PyInt 60)]).1
  = [HeartbeatEvent.mk "email" (timedelta 60)].
Proof.
  assert (HeartbeatEvent.mk "email" (timedelta 60) ∈
            (_validate_events unix_seconds_parser sample_batch).1) as Hin
    by (vm_compute; right; left).
  assert (unix_seconds_parser (PyInt 60) =
          Parsed (HeartbeatEvent.timestamp
                    (HeartbeatEvent.mk "email" (timedelta 60)))) as Hparse
    by reflexivity.
  split; [exact Hin|]. split; [exact Hparse|].
  exact (accepted_event_accepted_again unix_seconds_parser sample_batch
           _ _ Hin Hparse).
Defined.

Lemma skipped_reasons_known_witness :
  ValidationResult.skipped_reasons
    (_validate_events unix_seconds_parser sample_batch).2 !! "unexpected_error"
  = Some 1 /\
  1 <= 1 /\
  "unexpected_error" ∈
    ["missing_service"; "missing_timestamp"; "empty_service";
     "empty_timestamp"; "invalid_timestamp_format";
     "invalid_service_format"; "unexpected_error"].
Proof.
  assert (ValidationResult.skipped_reasons
            (_validate_events unix_seconds_parser sample_batch).2
          !! "unexpected_error" = Some 1) as Hlook by (vm_compute; reflexivity).
  split; [exact Hlook|].
  exact (skipped_reasons_known unix_seconds_parser sample_batch _ _ Hlook).
Defined.

Lemma no_service_key_is_missing_service_witness :
  ({["timestamp" := PyInt 0]} : gmap string pyval) !! "service" = None /\
  (_validate_events unix_seconds_parser
     [PyDict {["timestamp" := PyInt 0]}]).1 = [] /\
  ValidationResult.skipped_reasons
    (_validate_events unix_seconds_parser
       [PyDict {["timestamp" := PyInt 0]}]).2 =
  {["missing_service" := 1]}.
Proof.
  assert (({["timestamp" := PyInt 0]} : gmap string pyval) !! "service" = None)
    as Hs by (vm_compute; reflexivity).
  split; [exact Hs|].
  exact (no_service_key_is_missing_service unix_seconds_parser _ Hs).
Defined.

Lemma no_timestamp_key_is_missing_timestamp_witness :
  ({["service" := PyStr ""]} : gmap string pyval) !! "service" = Some (PyStr "") /\
  (truthy (PyStr "") = true -> exists s, PyStr "" = PyStr s) /\
  ({["service" := PyStr ""]} : gmap string pyval) !! "timestamp" = None /\
  (_validate_events unix_seconds_parser [PyDict {["service" := PyStr ""]}]).1
  = [] /\
  ValidationResult.skipped_reasons
    (_validate_events unix_seconds_parser [PyDict {["service" := PyStr ""]}]).2
  = {["missing_timestamp" := 1]}.
Proof.
  assert (({["service" := PyStr ""]} : gmap string pyval) !! "service"
          = Some (PyStr "")) as Hs by (vm_compute; reflexivity).
  assert (truthy (PyStr "") = true -> exists s, PyStr "" = PyStr s) as Hstr
    by (intros _; by exists "").
  assert (({["service" := PyStr ""]} : gmap string pyval) !! "timestamp" = None)
    as Ht by (vm_compute; reflexivity).
  split; [exact Hs|]. split; [exact Hstr|]. split; [exact Ht|].
  exact (no_timestamp_key_is_missing_timestamp unix_seconds_parser _ _
           Hs Hstr Ht).
Defined.

Lemma both_keys_reason_witness :
  let d : gmap string pyval :=
    <["service" := PyStr "bad name"]>
      (<["timestamp" := PyStr "not-a-real-timestamp"]> ∅) in
  let first :=
    {| loc := "service"; type := "string_pattern_mismatch";
       msg := "String should match pattern '^[a-zA-Z0-9_-]+$'" |} in
  let rest :=
    [{| loc := "timestamp"; type := "datetime_type";
        msg := "Input should be a valid datetime" |}] in
  d !! "service" = Some (PyStr "bad name") /\
  d !! "timestamp" = Some (PyStr "not-a-real-timestamp") /\
  HeartbeatEvent_new unix_seconds_parser (PyDict d) = ValidationError first rest /\
  ValidationResult.skipped_reasons
    (_validate_events unix_seconds_parser [PyDict d]).2 =
  {[ (if is_none_or_empty_str (PyStr "bad name") then "empty_service"
      else if is_none_or_empty_str (PyStr "not-a-real-timestamp")
           then "empty_timestamp"
      else match service_field d with
           | FieldOk _ => "invalid_timestamp_format"
           | _ => "invalid_service_format"
           end) := 1 ]}.
Proof.
  intros d first rest.
  assert (d !! "service" = Some (PyStr "bad name")) as Hs
    by (vm_compute; reflexivity).
  assert (d !! "timestamp" = Some (PyStr "not-a-real-timestamp")) as Ht
    by (vm_compute; reflexivity).
  assert (HeartbeatEvent_new unix_seconds_parser (PyDict d)
          = ValidationError first rest) as Hnew by (vm_compute; reflexivity).
  split; [exact Hs|]. split; [exact Ht|]. split; [exact Hnew|].
  exact (both_keys_reason unix_seconds_parser d _ _ first rest Hs Ht Hnew).
Defined.

Lemma not_a_mapping_or_odd_service_is_unexpected_witness :
  ((forall d, PyList [] <> PyDict d) \/
   (exists d v, PyList [] = PyDict d /\ d !! "service" = Some v /\
                truthy v = true /\ forall s, v <> PyStr s)) /\
  (_validate_events unix_seconds_parser [PyList []]).1 = [] /\
  ValidationResult.skipped_reasons
    (_validate_events unix_seconds_parser [PyList []]).2 =
  {["unexpected_error" := 1]}.
Proof.
  assert ((forall d, PyList [] <> PyDict d) \/
          (exists d v, PyList [] = PyDict d /\ d !! "service" = Some v /\
                       truthy v = true /\ forall s, v <> PyStr s)) as Hraw
    by (left; intros d; discriminate).
  split; [exact Hraw|].
  exact (not_a_mapping_or_odd_service_is_unexpected unix_seconds_parser _ Hraw).
Defined.

Lemma detect_alerts_per_service_witness :
  MonitorConfig.valid cfg_60_3 /\
  exists result,
    detect_alerts unix_seconds_parser (HeartbeatMonitor.new cfg_60_3) 0 5
      sample_batch = Returned result /\
    _detect_service_alerts (HeartbeatMonitor.new cfg_60_3) "sms"
      (events_of "sms" (_validate_events unix_seconds_parser sample_batch).1) =
    Some (filter (fun a => Alert.service a = "sms")
            (MonitorResult.alerts result)).
Proof.
  assert (MonitorConfig.valid cfg_60_3) as Hv by valid_config.
  split; [exact Hv|]. eexists.
  assert (forall r, detect_alerts unix_seconds_parser
                      (HeartbeatMonitor.new cfg_60_3) 0 5 sample_batch
                    = Returned r ->
            detect_alerts unix_seconds_parser
              (HeartbeatMonitor.new cfg_60_3) 0 5 sample_batch = Returned r /\
            _detect_service_alerts (HeartbeatMonitor.new cfg_60_3) "sms"
              (events_of "sms"
                 (_validate_events unix_seconds_parser sample_batch).1) =
            Some (filter (fun a => Alert.service a = "sms")
                    (MonitorResult.alerts r))) as Hstep.
  { intros r Hr. split; [exact Hr|].
    exact (detect_alerts_per_service unix_seconds_parser cfg_60_3 0 5
             sample_batch r "sms" Hv Hr). }
  apply Hstep. vm_compute. reflexivity.
Defined.

Lemma detect_alerts_all_alerts_witness :
  MonitorConfig.valid cfg_60_3 /\
  exists result,
    detect_alerts unix_seconds_parser (HeartbeatMonitor.new cfg_60_3) 0 5
      sample_batch = Returned result /\
    Forall (fun a =>
              Alert.service a ∈ MonitorResult.services_monitored result /\
              Alert.missed_count a = MonitorConfig.allowed_misses cfg_60_3 /\
              Alert.alert_at a =
                Alert.last_seen a +
                timedelta (MonitorConfig.allowed_misses cfg_60_3 *
                           MonitorConfig.expected_interval_seconds cfg_60_3))
      (MonitorResult.alerts result).
Proof.
  assert (MonitorConfig.valid cfg_60_3) as Hv by valid_config.
  split; [exact Hv|]. eexists.
  assert (forall r, detect_alerts unix_seconds_parser
                      (HeartbeatMonitor.new cfg_60_3) 0 5 sample_batch
                    = Returned r ->
            detect_alerts unix_seconds_parser
              (HeartbeatMonitor.new cfg_60_3) 0 5 sample_batch = Returned r /\
            Forall (fun a =>
                      Alert.service a ∈ MonitorResult.services_monitored r /\
                      Alert.missed_count a =
                        MonitorConfig.allowed_misses cfg_60_3 /\
                      Alert.alert_at a =
                        Alert.last_seen a +
                        timedelta (MonitorConfig.allowed_misses cfg_60_3 *
                                   MonitorConfig.expected_interval_seconds
                                     cfg_60_3))
              (MonitorResult.alerts r)) as Hstep.
  { intros r Hr. split; [exact Hr|].
    exact (detect_alerts_all_alerts unix_seconds_parser cfg_60_3 0 5
             sample_batch r Hv Hr). }
  apply Hstep. vm_compute. reflexivity.
Defined.

Lemma detect_alerts_nothing_accepted_witness :
  (_validate_events unix_seconds_parser [PyNone]).1 = [] /\ 0 <= 5 /\
  detect_alerts unix_seconds_parser (HeartbeatMonitor.new cfg_60_3) 0 5 [PyNone]
  = Returned (MonitorResult.mk []
                (_validate_events unix_seconds_parser [PyNone]).2 [] (5 - 0) 5).
Proof.
  assert ((_validate_events unix_seconds_parser [PyNone]).1 = []) as Hnone
    by reflexivity.
  assert (0 <= 5) as Hclock by lia.
  split; [exact Hnone|]. split; [exact Hclock|].
  exact (detect_alerts_nothing_accepted unix_seconds_parser _ 0 5 [PyNone]
           Hnone Hclock).
Defined.

Lemma detect_alerts_clock_went_back_witness :
  MonitorConfig.valid cfg_60_3 /\ 5 < 10 /\
  detect_alerts unix_seconds_parser (HeartbeatMonitor.new cfg_60_3) 10 5
    sample_batch =
  Raised [{| loc := "monitoring_duration_ms"; type := "greater_than_equal";
             msg := "Input should be greater than or equal to 0" |}].
Proof.
  assert (MonitorConfig.valid cfg_60_3) as Hv by valid_config.
  assert (5 < 10) as Hclock by lia.
  split; [exact Hv|]. split; [exact Hclock|].
  exact (detect_alerts_clock_went_back unix_seconds_parser cfg_60_3 10 5
           sample_batch Hv Hclock).
Defined.


